(** * OctoCAT Supply API: search ranking and cart-order creation

    A shallow embedding of the two pieces of logic of the API that carry
    behaviour of their own:

    - [SearchRepository] (searchProducts, searchSuppliers, searchOrders,
      getSuggestions) and the [GET /suggestions] route in front of it;
    - the [POST /] cart-order route, which resolves products and writes an
      order with its details inside one SQLite transaction.

    Strings are sequences of code points below 256 (Rocq's [ascii] read as
    Latin-1), which is enough to tell the JavaScript case mapping from the
    one SQLite applies.  Integers are [Z]; prices are binary64 numbers, as
    in JavaScript and in a SQLite REAL column. *)

From Stdlib Require Import ZArith String Ascii Floats DecimalString DecimalPos Sorted.
From stdpp Require Import base list gmap strings.

#[local] Set Warnings "-inexact-float,-clear-no-such-hyp".
#[local] Open Scope Z_scope.

(** ** JavaScript runtime functions used by the routes *)

Module JS.

Definition code (c : ascii) : N := N_of_ascii c.

Definition between (lo hi : N) (c : ascii) : bool :=
  ((lo <=? code c) && (code c <=? hi))%N.

(** [String.prototype.toLowerCase] on code points below 256: the letters
    A-Z and the Latin-1 capitals U+00C0-U+00DE (U+00D7, the
    multiplication sign, is not a letter) move up by 32. *)
Definition toLowerCaseChar (c : ascii) : ascii :=
  if between 65 90 c || between 192 214 c || between 216 222 c
  then ascii_of_N (code c + 32) else c.

Fixpoint toLowerCase (s : string) : string :=
  match s with
  | EmptyString => EmptyString
  | String c s' => String (toLowerCaseChar c) (toLowerCase s')
  end.

(** White space and line terminators skipped by [parseInt]:
    TAB, LF, VT, FF, CR, SP and NBSP. *)
Definition isWhiteSpace (c : ascii) : bool :=
  between 9 13 c || (code c =? 32)%N || (code c =? 160)%N.

Fixpoint trimStart (s : string) : string :=
  match s with
  | String c s' => if isWhiteSpace c then trimStart s' else s
  | EmptyString => EmptyString
  end.

(** Value of a digit in the given radix, if it is one. *)
Definition digitValue (radix : Z) (c : ascii) : option Z :=
  let v :=
    if between 48 57 c then Some (Z.of_N (code c) - 48)
    else if between 97 122 c then Some (Z.of_N (code c) - 87)
    else if between 65 90 c then Some (Z.of_N (code c) - 55)
    else None in
  match v with
  | Some d => if d <? radix then Some d else None
  | None => None
  end.

(** Longest prefix of digits, accumulated left to right; [None] when the
    string starts with no digit. *)
Fixpoint digits (radix : Z) (s : string) (acc : option Z) : option Z :=
  match s with
  | String c s' =>
      match digitValue radix c with
      | Some d => digits radix s' (Some (radix * default 0 acc + d))
      | None => acc
      end
  | EmptyString => acc
  end.

(** The Number a mathematical integer becomes: the nearest binary64
    value, ties to the even significand.  Integers below 2^53 in absolute
    value are exact; 2^53 + 1 becomes 2^53.  (Beyond the largest binary64
    value JavaScript gives Infinity; the rounded integer stands for it
    here, which is as large for every comparison made below.) *)
Definition toNumber (n : Z) : Z :=
  let m := Z.abs n in
  let e := Z.log2 m - 52 in
  if e <=? 0 then n
  else
    let significand := m `div` 2 ^ e in
    let rest := m `mod` 2 ^ e in
    let half := 2 ^ (e - 1) in
    let rounded :=
      if rest <? half then significand
      else if half <? rest then significand + 1
      else if Z.even significand then significand
      else significand + 1 in
    Z.sgn n * (rounded * 2 ^ e).

(** [parseInt(s)] with no radix argument; [None] stands for NaN.  Leading
    white space is skipped, a sign is read, a [0x] or [0X] prefix selects
    radix 16, and what follows the digits is ignored.  The result is a
    Number: the integer read, rounded to binary64. *)
Definition parseInt (s : string) : option Z :=
  let s := trimStart s in
  let '(sign, s) :=
    match s with
    | String "-" s' => (-1, s')
    | String "+" s' => (1, s')
    | _ => (1, s)
    end in
  let '(radix, s) :=
    match s with
    | String "0" (String "x" s') => (16, s')
    | String "0" (String "X" s') => (16, s')
    | _ => (10, s)
    end in
  (λ n, toNumber (sign * n)) <$> digits radix s None.

(** [Math.ceil(n / 3)] for an integer [n]. *)
Definition ceilDiv3 (n : Z) : Z := (n + 2) `div` 3.

(** [Math.max(a, b, c)] on array lengths. *)
Definition max3 (a b c : nat) : nat := Nat.max (Nat.max a b) c.

(** [Array.prototype.slice(0, end)]: a negative [end] counts from the
    end of the array. *)
Definition slice0 {A} (l : list A) (end_ : Z) : list A :=
  let len := Z.of_nat (length l) in
  let k := if end_ <? 0 then Z.max (len + end_) 0 else Z.min end_ len in
  take (Z.to_nat k) l.

(** The two conversions to text that depend on the host: a number
    interpolated in a template string, and
    [new Date(s).toLocaleDateString()], which follows the locale and the
    time zone of the process. *)
Record Host := {
  numberToString : float → string;
  toLocaleDateString : string → string;
}.

End JS.

(** ** SQLite functions and clauses used by the queries *)

Module SQLite.

(** [LOWER(X)]: the built-in function folds the letters A-Z only ("the
    default built-in lower() function works for ASCII characters only"). *)
Definition lowerChar (c : ascii) : ascii :=
  if JS.between 65 90 c then ascii_of_N (JS.code c + 32) else c.

Fixpoint lower (s : string) : string :=
  match s with
  | EmptyString => EmptyString
  | String c s' => String (lowerChar c) (lower s')
  end.

(** How [LIKE] compares a pattern character with a text character: equal
    code points, or two characters below 128 equal up to case ("LIKE is
    case-insensitive by default for ASCII characters only": ['a' LIKE 'A']
    holds, ['æ' LIKE 'Æ'] does not). *)
Definition likeChar (p c : ascii) : bool :=
  Ascii.eqb p c
  || (JS.between 0 127 p && JS.between 0 127 c
      && Ascii.eqb (lowerChar p) (lowerChar c)).

(** The comparison behind [LIKE], no ESCAPE clause: [%] matches any run
    of characters, [_] any one character. *)
Fixpoint patternCompare (pattern text : string) : bool :=
  match pattern with
  | EmptyString =>
      match text with EmptyString => true | _ => false end
  | String "%" pattern' =>
      (fix anywhere (t : string) : bool :=
         patternCompare pattern' t
         || match t with
            | EmptyString => false
            | String _ t' => anywhere t'
            end) text
  | String "_" pattern' =>
      match text with
      | EmptyString => false
      | String _ text' => patternCompare pattern' text'
      end
  | String p pattern' =>
      match text with
      | EmptyString => false
      | String c text' => likeChar p c && patternCompare pattern' text'
      end
  end.

(** A text as a C string: what comes before its first zero byte. *)
Fixpoint cString (s : string) : string :=
  match s with
  | EmptyString => EmptyString
  | String c s' => if (JS.code c =? 0)%N then EmptyString else String c (cString s')
  end.

(** [text LIKE pattern]: the function takes both operands as C strings, so
    it reads the pattern and the text up to their first zero byte. *)
Definition like (pattern text : string) : bool :=
  patternCompare (cString pattern) (cString text).

(** [LIMIT n]: a negative [n] means no limit. *)
Definition limit {A} (n : Z) (rows : list A) : list A :=
  if n <? 0 then rows else take (Z.to_nat n) rows.

(** Where a row goes among rows already in order: before the first of
    them it does not have to come after. *)
Fixpoint insertRow {A} (le : A → A → bool) (x : A) (sorted : list A) : list A :=
  match sorted with
  | [] => [x]
  | y :: rest => if le x y then x :: sorted else y :: insertRow le x rest
  end.

(** [ORDER BY]: rows sorted by a total preorder given as a boolean
    comparison.  SQL leaves the order of rows with equal keys open;
    SQLite's sorter keeps them in the order in which they were read from
    the table, and so does this sort. *)
Definition orderBy {A} (le : A → A → bool) (rows : list A) : list A :=
  foldr (insertRow le) [] rows.

End SQLite.

(** ** Data model: the tables and the suggestion shape *)

Module Supplier.
Record t := { supplierId : Z; name : string; email : option string }.
End Supplier.

Module Product.
Record t := {
  productId : Z; supplierId : Z; name : string; description : string;
  price : float; sku : string; unit : string;
}.
End Product.

Module Order.
Record t := {
  orderId : Z; branchId : Z; orderDate : string; status : string;
  name : string; description : string;
}.
End Order.

Module OrderDetail.
Record t := {
  orderDetailId : Z; orderId : Z; productId : Z; quantity : Z;
  unitPrice : float; notes : string;
}.
End OrderDetail.

(** The tables, each in rowid order. *)
Record Store := {
  suppliers : list Supplier.t;
  products : list Product.t;
  orders : list Order.t;
  order_details : list OrderDetail.t;
}.

Module SuggestionType.
Inductive t := product | supplier | order.
End SuggestionType.

#[global] Instance SuggestionType_eq_dec : EqDecision SuggestionType.t.
Proof. solve_decision. Defined.

Record Metadata := { md_price : float; md_sku : string }.

Record SearchSuggestion := {
  type : SuggestionType.t;
  id : Z;
  text : string;
  subtext : string;
  metadata : option Metadata;
}.

(** ** SearchRepository

    Each search is its SELECT read clause by clause over the table: WHERE
    is a filter, ORDER BY a sort, LIMIT a prefix, and the rows are mapped to
    suggestions ([objectToCamelCase] only renames the columns).  A query
    that fails in the database ([handleDatabaseError]) has no counterpart:
    reading the tables of a [Store] cannot fail. *)

Module SearchRepository.

(** The CASE expression of the product query, on a row. *)
Definition productRelevance (exactPattern : string) (row : Product.t) : Z :=
  let name := SQLite.lower (Product.name row) in
  let sku := SQLite.lower (Product.sku row) in
  if String.eqb name exactPattern || String.eqb sku exactPattern then 1
  else if SQLite.like (exactPattern +:+ "%") name
          || SQLite.like (exactPattern +:+ "%") sku then 2
  else 3.

(** WHERE LOWER(name) LIKE ? OR LOWER(sku) LIKE ? *)
Definition productWhere (searchPattern : string) (row : Product.t) : bool :=
  SQLite.like searchPattern (SQLite.lower (Product.name row))
  || SQLite.like searchPattern (SQLite.lower (Product.sku row)).

(** ORDER BY relevance, name; names compare by character code (the
    collation BINARY). *)
Definition productOrder (exactPattern : string) (a b : Product.t) : bool :=
  let ra := productRelevance exactPattern a in
  let rb := productRelevance exactPattern b in
  (ra <? rb) || ((ra =? rb) && String.leb (Product.name a) (Product.name b)).

Definition productSuggestion (h : JS.Host) (row : Product.t) : SearchSuggestion :=
  {| type := SuggestionType.product;
     id := Product.productId row;
     text := Product.name row;
     subtext := "SKU: " +:+ Product.sku row +:+ " | $"
                +:+ JS.numberToString h (Product.price row);
     metadata := Some {| md_price := Product.price row;
                         md_sku := Product.sku row |} |}.

Definition productRows (db : Store) (query : string) (limit : Z) : list Product.t :=
  let searchPattern := "%" +:+ query +:+ "%" in
  let exactPattern := JS.toLowerCase query in
  SQLite.limit limit
    (SQLite.orderBy (productOrder exactPattern)
       (List.filter (productWhere searchPattern) (products db))).

Definition searchProducts (h : JS.Host) (db : Store) (query : string) (limit : Z)
  : list SearchSuggestion :=
  map (productSuggestion h) (productRows db query limit).

(** The CASE expression shared by the supplier and the order query, on
    the row's name. *)
Definition nameRelevance (exactPattern name : string) : Z :=
  let name := SQLite.lower name in
  if String.eqb name exactPattern then 1
  else if SQLite.like (exactPattern +:+ "%") name then 2
  else 3.

(** WHERE LOWER(name) LIKE ? *)
Definition nameWhere (searchPattern name : string) : bool :=
  SQLite.like searchPattern (SQLite.lower name).

(** ORDER BY relevance, name *)
Definition supplierOrder (exactPattern : string) (a b : Supplier.t) : bool :=
  let ra := nameRelevance exactPattern (Supplier.name a) in
  let rb := nameRelevance exactPattern (Supplier.name b) in
  (ra <? rb) || ((ra =? rb) && String.leb (Supplier.name a) (Supplier.name b)).

Definition supplierSuggestion (row : Supplier.t) : SearchSuggestion :=
  {| type := SuggestionType.supplier;
     id := Supplier.supplierId row;
     text := Supplier.name row;
     subtext := default "" (Supplier.email row);
     metadata := None |}.

Definition supplierRows (db : Store) (query : string) (limit : Z) : list Supplier.t :=
  let searchPattern := "%" +:+ query +:+ "%" in
  let exactPattern := JS.toLowerCase query in
  SQLite.limit limit
    (SQLite.orderBy (supplierOrder exactPattern)
       (List.filter (λ row, nameWhere searchPattern (Supplier.name row))
          (suppliers db))).

Definition searchSuppliers (db : Store) (query : string) (limit : Z)
  : list SearchSuggestion :=
  map supplierSuggestion (supplierRows db query limit).

(** ORDER BY relevance, order_date DESC *)
Definition orderOrder (exactPattern : string) (a b : Order.t) : bool :=
  let ra := nameRelevance exactPattern (Order.name a) in
  let rb := nameRelevance exactPattern (Order.name b) in
  (ra <? rb)
  || ((ra =? rb) && String.leb (Order.orderDate b) (Order.orderDate a)).

Definition orderSuggestion (h : JS.Host) (row : Order.t) : SearchSuggestion :=
  {| type := SuggestionType.order;
     id := Order.orderId row;
     text := Order.name row;
     subtext := "Status: " +:+ Order.status row +:+ " | "
                +:+ JS.toLocaleDateString h (Order.orderDate row);
     metadata := None |}.

Definition orderRows (db : Store) (query : string) (limit : Z) : list Order.t :=
  let searchPattern := "%" +:+ query +:+ "%" in
  let exactPattern := JS.toLowerCase query in
  SQLite.limit limit
    (SQLite.orderBy (orderOrder exactPattern)
       (List.filter (λ row, nameWhere searchPattern (Order.name row))
          (orders db))).

Definition searchOrders (h : JS.Host) (db : Store) (query : string) (limit : Z)
  : list SearchSuggestion :=
  map (orderSuggestion h) (orderRows db query limit).

(** The interleaving loop of getSuggestions.  [steps] counts the
    iterations left ([maxLength - i]); [arr !! i] is [Some] exactly when
    [i < arr.length]; the loop is left once [limit] entries are there. *)
Definition push (all : list SearchSuggestion) (x : option SearchSuggestion)
  : list SearchSuggestion :=
  match x with Some s => all ++ [s] | None => all end.

Fixpoint interleave (products suppliers orders : list SearchSuggestion)
    (limit : Z) (steps i : nat) (allSuggestions : list SearchSuggestion)
  : list SearchSuggestion :=
  match steps with
  | O => allSuggestions
  | S steps' =>
      let all1 := push allSuggestions (products !! i) in
      let all2 := push all1 (suppliers !! i) in
      let all3 := push all2 (orders !! i) in
      if Z.of_nat (length all3) >=? limit then all3
      else interleave products suppliers orders limit steps' (S i) all3
  end.

Definition getSuggestions (h : JS.Host) (db : Store) (query : string)
    (entityType : option string) (limit : Z) : list SearchSuggestion :=
  match entityType with
  | Some "products" => searchProducts h db query limit
  | Some "suppliers" => searchSuppliers db query limit
  | Some "orders" => searchOrders h db query limit
  | _ =>
      let perEntityLimit := JS.ceilDiv3 limit in
      let products := searchProducts h db query perEntityLimit in
      let suppliers := searchSuppliers db query perEntityLimit in
      let orders := searchOrders h db query perEntityLimit in
      let maxLength :=
        JS.max3 (length products) (length suppliers) (length orders) in
      let allSuggestions :=
        interleave products suppliers orders limit maxLength 0 [] in
      JS.slice0 allSuggestions limit
  end.

End SearchRepository.

(** ** What a route hands back to Express *)

Module Express.

(** The errors the routes throw: [ValidationError] of utils/errors, and any
    other [Error] (a failed statement, a broken expectation). *)
Inductive Exn :=
| ValidationError (message : string)
| Error (message : string).

Inductive Body :=
| SearchResponse (query : string) (suggestions : list SearchSuggestion)
| OrderValidationError (error : string) (productId : Z)
| OrderWithDetails (order : Order.t) (details : list (OrderDetail.t * Product.t))
| ErrorBody (code message : string)
| InternalError.

Record Response := { status : Z; body : Body }.

(** A handler either sends a response itself ([res.status(..).json(..)]) or
    passes the error it caught on ([next(error)]). *)
Inductive Outcome :=
| Sent (r : Response)
| Next (e : Exn).

(** Modelled from the spec: [errorHandler] of utils/errors, which is not
    among the sources.  A [ValidationError] becomes a 400 whose body is
    [{error: {code: "VALIDATION_ERROR", message}}], the message prefixed as
    in the Swagger examples of the search route; any other error becomes a
    500 whose body the spec leaves open. *)
Definition errorHandler (e : Exn) : Response :=
  match e with
  | ValidationError message =>
      {| status := 400;
         body := ErrorBody "VALIDATION_ERROR" ("Validation error: " +:+ message) |}
  | Error _ => {| status := 500; body := InternalError |}
  end.

(** The response the client sees. *)
Definition respond (o : Outcome) : Response :=
  match o with
  | Sent r => r
  | Next e => errorHandler e
  end.

End Express.

(** ** GET /suggestions *)

Module SearchRoute.
Import Express.

(** [req.query] of a request that sends each parameter at most once, as
    [name=value]: each parameter is absent or a string.  (A parameter sent
    several times, or with brackets, reaches the handler as an array or an
    object; such requests are not among these.) *)
Record Query := {
  q : option string;
  entity : option string;
  limit : option string;
}.

Definition validEntities : list string := ["products"; "suppliers"; "orders"].

(** [validEntities.join(', ')] *)
Definition joinComma (l : list string) : string :=
  match l with
  | [] => ""
  | x :: rest => foldl (λ acc y, acc +:+ ", " +:+ y) x rest
  end.

(** A string is truthy when it is not empty. *)
Definition truthy (s : option string) : bool :=
  match s with
  | None | Some "" => false
  | Some _ => true
  end.

Definition suggestions (h : JS.Host) (db : Store) (req : Query) : Outcome :=
  let query := q req in
  let entity := entity req in
  (* [None] is NaN *)
  let limit :=
    if truthy (limit req) then JS.parseInt (default "" (limit req)) else Some 10 in
  if negb (truthy query) then
    Next (ValidationError ("Query parameter " +:+ String "034" "q"
                            +:+ String "034" " is required"))
  else
  let query := default "" query in
  if (String.length query <? 3)%nat then
    Next (ValidationError "Query must be at least 3 characters long")
  else if truthy entity
          && negb (bool_decide (default "" entity ∈ validEntities)) then
    Next (ValidationError ("Invalid entity type. Must be one of: "
                            +:+ joinComma validEntities))
  else
  match limit with
  | None => Next (ValidationError "Limit must be a positive number")
  | Some limit =>
      if limit <? 1 then
        Next (ValidationError "Limit must be a positive number")
      else if limit >? 20 then
        Next (ValidationError "Limit cannot exceed 20")
      else
        Sent {| status := 200;
                body := SearchResponse query
                          (SearchRepository.getSuggestions h db query entity limit) |}
  end.

End SearchRoute.

(** ** POST / : create an order from a shopping cart *)

Module OrderRoute.
Import Express.

Record Item := { productId : Z; quantity : Z }.

(** [req.body as CartOrderRequest]: [branchId] may be absent, and [items]
    is [None] when it is absent or not an array. *)
Record CartOrderRequest := {
  branchId : option Z;
  items : option (list Item);
}.

(** The database connection, the one [getDatabase()] hands to the handler
    and to the repositories alike: the tables as the connection sees them,
    and, while a transaction is open, the tables to go back to on
    ROLLBACK. *)
Record Conn := { store : Store; txn : option Store }.

(** The statements of the transaction block that can fail.  Whether one
    does (a constraint, the disk) is not for the handler to decide: it is
    given from outside, as a function [fails] on these names. *)
Inductive Write :=
| CreateOrder
| CreateDetail (i : nat)
| Commit.

Inductive Result (A : Type) :=
| Ok (a : A)
| Throw (e : Exn).
Arguments Ok {A} a.
Arguments Throw {A} e.

(** Code that runs against the connection and may throw. *)
Definition M (A : Type) : Type := Conn → Result A * Conn.

Definition ret {A} (a : A) : M A := λ c, (Ok a, c).

Definition throw {A} (e : Exn) : M A := λ c, (Throw e, c).

Definition bind {A B} (m : M A) (k : A → M B) : M B :=
  λ c, match m c with
       | (Ok a, c') => k a c'
       | (Throw e, c') => (Throw e, c')
       end.

(** [try { body } catch (error) { handler }] *)
Definition tryCatch {A} (body : M A) (handler : Exn → M A) : M A :=
  λ c, match body c with
       | (Ok a, c') => (Ok a, c')
       | (Throw e, c') => handler e c'
       end.

Notation "x <- m ;; k" := (bind m (λ x, k))
  (at level 100, m at next level, right associativity).
Notation "m ;;; k" := (bind m (λ _, k))
  (at level 100, right associativity).

(** [db.run('BEGIN TRANSACTION')] *)
Definition beginTransaction : M unit :=
  λ c, match txn c with
       | Some _ =>
           (Throw (Error "cannot start a transaction within a transaction"), c)
       | None => (Ok (), {| store := store c; txn := Some (store c) |})
       end.

(** [db.run('COMMIT')] *)
Definition commit (fails : Write → bool) : M unit :=
  λ c, match txn c with
       | None => (Throw (Error "cannot commit - no transaction is active"), c)
       | Some _ =>
           if fails Commit then (Throw (Error "commit failed"), c)
           else (Ok (), {| store := store c; txn := None |})
       end.

(** [db.run('ROLLBACK')] *)
Definition rollback : M unit :=
  λ c, match txn c with
       | None => (Throw (Error "cannot rollback - no transaction is active"), c)
       | Some saved => (Ok (), {| store := saved; txn := None |})
       end.

(** The id SQLite gives a new row: one more than the largest in use. *)
Definition nextId (ids : list Z) : Z := 1 + foldr Z.max 0 ids.

(** Modelled from the spec: [productsRepo.findById], the product row with
    this id, if there is one. *)
Definition productsRepo_findById (id : Z) : M (option Product.t) :=
  λ c, (Ok (List.find (λ p, Product.productId p =? id) (products (store c))), c).

(** Modelled from the spec: [ordersRepo.findById]. *)
Definition ordersRepo_findById (id : Z) : M (option Order.t) :=
  λ c, (Ok (List.find (λ o, Order.orderId o =? id) (orders (store c))), c).

(** Modelled from the spec: [ordersRepo.create], which inserts one row and
    returns it with its new id, or throws and inserts nothing. *)
Definition ordersRepo_create (fails : Write → bool)
    (branchId : Z) (orderDate status name description : string) : M Order.t :=
  λ c, if fails CreateOrder then (Throw (Error "insert into orders failed"), c)
       else
         let s := store c in
         let row :=
           {| Order.orderId := nextId (Order.orderId <$> orders s);
              Order.branchId := branchId; Order.orderDate := orderDate;
              Order.status := status; Order.name := name;
              Order.description := description |} in
         (Ok row,
          {| store := {| suppliers := suppliers s; products := products s;
                         orders := orders s ++ [row];
                         order_details := order_details s |};
             txn := txn c |}).

(** Modelled from the spec: [orderDetailsRepo.create], for the item at
    position [i] of the request. *)
Definition orderDetailsRepo_create (fails : Write → bool) (i : nat)
    (orderId productId quantity : Z) (unitPrice : float) (notes : string)
  : M OrderDetail.t :=
  λ c, if fails (CreateDetail i) then
         (Throw (Error "insert into order_details failed"), c)
       else
         let s := store c in
         let row :=
           {| OrderDetail.orderDetailId :=
                nextId (OrderDetail.orderDetailId <$> order_details s);
              OrderDetail.orderId := orderId;
              OrderDetail.productId := productId;
              OrderDetail.quantity := quantity;
              OrderDetail.unitPrice := unitPrice;
              OrderDetail.notes := notes |} in
         (Ok row,
          {| store := {| suppliers := suppliers s; products := products s;
                         orders := orders s;
                         order_details := order_details s ++ [row] |};
             txn := txn c |}).

(** An integer interpolated in a template string. *)
Definition integerToString (n : Z) : string :=
  NilZero.string_of_int (Z.to_int n).

(** The loop that validates the products: the id of the first item that
    resolves to nothing, or the map of the products found. *)
Fixpoint resolveProducts (items : list Item) (productMap : gmap Z Product.t)
  : M (Z + gmap Z Product.t) :=
  match items with
  | [] => ret (inr productMap)
  | item :: rest =>
      product <- productsRepo_findById (productId item);;
      match product with
      | None => ret (inl (productId item))
      | Some product =>
          resolveProducts rest (<[productId item := product]> productMap)
      end
  end.

(** The loop that creates the OrderDetail records; [i] is the position of
    the next item. *)
Fixpoint createDetails (fails : Write → bool) (productMap : gmap Z Product.t)
    (orderId : Z) (items : list Item) (i : nat)
    (orderDetails : list (OrderDetail.t * Product.t))
  : M (list (OrderDetail.t * Product.t)) :=
  match items with
  | [] => ret orderDetails
  | item :: rest =>
      match productMap !! productId item with
      | None =>
          throw (Error ("Product " +:+ integerToString (productId item)
                        +:+ " not found in validation map"))
      | Some product =>
          createdDetail <-
            orderDetailsRepo_create fails i orderId (productId item)
              (quantity item) (Product.price product) "";;
          createDetails fails productMap orderId rest (S i)
            (orderDetails ++ [(createdDetail, product)])
      end
  end.

(** A number is falsy when it is absent or zero. *)
Definition falsy (n : option Z) : bool :=
  match n with
  | None | Some 0 => true
  | Some _ => false
  end.

(** The transaction of the handler, the inner [try] with its [catch]:
    BEGIN, the order, its details, COMMIT; on an error ROLLBACK, and the
    error is thrown again.  [now] is [new Date().toISOString()]; [fails]
    says which statements fail. *)
Definition writeOrder (now : string) (fails : Write → bool) (branchId : Z)
    (productMap : gmap Z Product.t) (cartItems : list Item)
  : M (Z * list (OrderDetail.t * Product.t)) :=
  tryCatch
    (beginTransaction;;;
     createdOrder <- ordersRepo_create fails branchId now "pending" "" "";;
     let orderId := Order.orderId createdOrder in
     orderDetails <- createDetails fails productMap orderId cartItems 0 [];;
     (commit fails;;;
      ret (orderId, orderDetails)))
    (λ error, rollback;;; throw error).

(** The handler: the checks, the validation loop, the transaction, the
    response. *)
Definition createCartOrder (now : string) (fails : Write → bool)
    (cartRequest : CartOrderRequest) : Conn → Outcome * Conn :=
  λ c,
  let handler : M Outcome :=
    tryCatch
      (if falsy (branchId cartRequest) then
         throw (ValidationError "branchId is required")
       else
       match items cartRequest with
       | None | Some [] => throw (ValidationError "items array must not be empty")
       | Some cartItems =>
           resolved <- resolveProducts cartItems ∅;;
           match resolved with
           | inl missing =>
               ret (Sent {| status := 400;
                            body := OrderValidationError "Product not found" missing |})
           | inr productMap =>
               written <-
                 writeOrder now fails (default 0 (branchId cartRequest))
                   productMap cartItems;;
               let '(orderId, orderDetails) := written in
               order <- ordersRepo_findById orderId;;
               match order with
               | None => throw (Error "Failed to retrieve created order")
               | Some order =>
                   ret (Sent {| status := 201;
                                body := OrderWithDetails order orderDetails |})
               end
           end
       end)
      (λ error, ret (Next error)) in
  match handler c with
  | (Ok outcome, c') => (outcome, c')
  | (Throw error, c') => (Next error, c')
  end.

(** A product row with another price. *)
Definition withPrice (price : float) (p : Product.t) : Product.t :=
  {| Product.productId := Product.productId p;
     Product.supplierId := Product.supplierId p;
     Product.name := Product.name p;
     Product.description := Product.description p;
     Product.price := price;
     Product.sku := Product.sku p;
     Product.unit := Product.unit p |}.

(** [db.run('UPDATE products SET price = ? WHERE product_id = ?')], the
    statement the price test runs between two orders. *)
Definition updateProductPrice (price : float) (productId : Z) (c : Conn) : Conn :=
  let s := store c in
  {| store :=
       {| suppliers := suppliers s;
          products :=
            (λ p, if Product.productId p =? productId then withPrice price p else p)
              <$> products s;
          orders := orders s;
          order_details := order_details s |};
     txn := txn c |}.

End OrderRoute.

(** ** The rows the test suites seed *)

Module Seed.

Definition widgetSupplier : Supplier.t :=
  {| Supplier.supplierId := 1; Supplier.name := "Widget Supplier Inc.";
     Supplier.email := Some "john@widget.com" |}.
Definition gadgetCorp : Supplier.t :=
  {| Supplier.supplierId := 2; Supplier.name := "Gadget Corp";
     Supplier.email := Some "contact@gadget.com" |}.
Definition widgetMasters : Supplier.t :=
  {| Supplier.supplierId := 3; Supplier.name := "Widget Masters";
     Supplier.email := Some "support@widgetmasters.com" |}.

Definition widgetA : Product.t :=
  {| Product.productId := 5; Product.supplierId := 1; Product.name := "Widget A";
     Product.description := "First widget"; Product.price := 29.99;
     Product.sku := "WDG-001"; Product.unit := "piece" |}.
Definition gadgetB : Product.t :=
  {| Product.productId := 12; Product.supplierId := 2; Product.name := "Gadget B";
     Product.description := "Second gadget"; Product.price := 49.99;
     Product.sku := "GDG-002"; Product.unit := "box" |}.
Definition superWidget : Product.t :=
  {| Product.productId := 15; Product.supplierId := 1; Product.name := "Super Widget";
     Product.description := "Premium widget"; Product.price := 99.99;
     Product.sku := "WDG-SUPER"; Product.unit := "piece" |}.
Definition miniGadget : Product.t :=
  {| Product.productId := 20; Product.supplierId := 2; Product.name := "Mini Gadget";
     Product.description := "Small gadget"; Product.price := 19.99;
     Product.sku := "GDG-MINI"; Product.unit := "piece" |}.

Definition widgetOrder : Order.t :=
  {| Order.orderId := 1; Order.branchId := 1; Order.orderDate := "2024-01-01";
     Order.status := "pending"; Order.name := "Widget Order";
     Order.description := "Order for widgets" |}.
Definition gadgetOrder : Order.t :=
  {| Order.orderId := 2; Order.branchId := 1; Order.orderDate := "2024-01-02";
     Order.status := "processing"; Order.name := "Gadget Order";
     Order.description := "Order for gadgets" |}.
Definition widgetRestock : Order.t :=
  {| Order.orderId := 3; Order.branchId := 1; Order.orderDate := "2024-01-03";
     Order.status := "delivered"; Order.name := "Widget Restock";
     Order.description := "Restocking widgets" |}.

(** The database of the search tests. *)
Definition searchDb : Store :=
  {| suppliers := [widgetSupplier; gadgetCorp; widgetMasters];
     products := [widgetA; gadgetB; superWidget; miniGadget];
     orders := [widgetOrder; gadgetOrder; widgetRestock];
     order_details := [] |}.

(** The database of the order tests: two products, no order yet. *)
Definition orderDb : Store :=
  {| suppliers :=
       [ {| Supplier.supplierId := 1; Supplier.name := "Supplier One";
            Supplier.email := None |};
         {| Supplier.supplierId := 2; Supplier.name := "Supplier Two";
            Supplier.email := None |} ];
     products := [widgetA; gadgetB];
     orders := [];
     order_details := [] |}.

(** A host that prints a placeholder for every number and every date; what
    a host prints plays no part below. *)
Definition host : JS.Host :=
  {| JS.numberToString := λ _, "<number>";
     JS.toLocaleDateString := λ _, "<date>" |}.

(** No statement fails. *)
Definition noFailure : OrderRoute.Write → bool := λ _, false.

End Seed.

(** ** Reference definitions the properties are stated with *)

Module Spec.

(** Round [i] of a round robin over three lists: the i-th element of each
    list that still has one, first list first. *)
Definition round {A} (a b c : list A) (i : nat) : list A :=
  option_list (a !! i) ++ option_list (b !! i) ++ option_list (c !! i).

(** The rounds 0, 1, ... as the loop of getSuggestions goes through them
    when it is not left early: the form the loop is compared with. *)
Definition rounds {A} (a b c : list A) : list A :=
  flat_map (round a b c) (seq 0 (JS.max3 (length a) (length b) (length c))).

(** The round robin over two lists: one element of each in turn, and what
    is left of the longer one once the other is used up. *)
Fixpoint roundRobin2 {A} (b c : list A) : list A :=
  match b with
  | [] => c
  | y :: b' => y :: option_list (head c) ++ roundRobin2 b' (tail c)
  end.

(** The round robin over three lists: the first element of each list that
    still has one, first list first, then the same over what is left,
    until all three lists are used up. *)
Fixpoint roundRobin {A} (a b c : list A) : list A :=
  match a with
  | [] => roundRobin2 b c
  | x :: a' =>
      x :: option_list (head b) ++ option_list (head c)
        ++ roundRobin a' (tail b) (tail c)
  end.

(** [needle] occurs in [hay] as a substring. *)
Fixpoint contains (needle hay : string) : bool :=
  String.prefix needle hay
  || match hay with
     | EmptyString => false
     | String _ hay' => contains needle hay'
     end.

(** The relevance tier of a case-folded text for a case-folded query:
    1 = equal, 2 = starts with it, 3 = anything else. *)
Definition tier (q text : string) : Z :=
  if String.eqb text q then 1 else if String.prefix q text then 2 else 3.

(** A product has the better of the tiers of its name and its SKU. *)
Definition productTier (q : string) (row : Product.t) : Z :=
  Z.min (tier q (SQLite.lower (Product.name row)))
        (tier q (SQLite.lower (Product.sku row))).

(** A text up to its first U+0000, if it has one. *)
Fixpoint upToNul (s : string) : string :=
  match s with
  | EmptyString => EmptyString
  | String c s' =>
      if (N_of_ascii c =? 0)%N then EmptyString else String c (upToNul s')
  end.

(** The text a row is searched in: its name, up to its first U+0000, with
    the letters A-Z folded. *)
Definition searched (name : string) : string := SQLite.lower (upToNul name).

Definition productMatches (q : string) (row : Product.t) : bool :=
  contains q (searched (Product.name row))
  || contains q (searched (Product.sku row)).

(** Ascending by tier, then by name. *)
Definition byTierThenName {A} (tierOf : A → Z) (nameOf : A → string) (a b : A) : Prop :=
  tierOf a < tierOf b
  ∨ (tierOf a = tierOf b ∧ String.leb (nameOf a) (nameOf b) = true).

(** Ascending by tier, then by date, latest first. *)
Definition byTierThenLatest {A} (tierOf : A → Z) (dateOf : A → string) (a b : A) : Prop :=
  tierOf a < tierOf b
  ∨ (tierOf a = tierOf b ∧ String.leb (dateOf b) (dateOf a) = true).

(** The rows the WHERE clause of each query selects. *)
Definition matchingProducts (db : Store) (query : string) : list Product.t :=
  List.filter (SearchRepository.productWhere ("%" +:+ query +:+ "%")) (products db).

Definition matchingSuppliers (db : Store) (query : string) : list Supplier.t :=
  List.filter
    (λ row, SearchRepository.nameWhere ("%" +:+ query +:+ "%") (Supplier.name row))
    (suppliers db).

Definition matchingOrders (db : Store) (query : string) : list Order.t :=
  List.filter
    (λ row, SearchRepository.nameWhere ("%" +:+ query +:+ "%") (Order.name row))
    (orders db).

(** Ascending by [rank], ties decided by [le2]: the shape of the three
    ORDER BY clauses. *)
Definition lexLe {A} (rank : A → Z) (le2 : A → A → bool) (a b : A) : bool :=
  (rank a <? rank b) || ((rank a =? rank b) && le2 a b).

(** The two wildcards of LIKE. *)
Definition isWildcard (c : ascii) : bool := Ascii.eqb c "%" || Ascii.eqb c "_".

Fixpoint noWildcard (s : string) : bool :=
  match s with
  | EmptyString => true
  | String c s' => negb (isWildcard c) && noWildcard s'
  end.

Fixpoint isAscii (s : string) : bool :=
  match s with
  | EmptyString => true
  | String c s' => JS.between 0 127 c && isAscii s'
  end.

Fixpoint noNul (s : string) : bool :=
  match s with
  | EmptyString => true
  | String c s' => negb (N_of_ascii c =? 0)%N && noNul s'
  end.

(** The capital letters outside A-Z: U+00C0-U+00DE without the
    multiplication sign U+00D7. *)
Definition isOtherCapital (c : ascii) : bool :=
  JS.between 192 214 c || JS.between 216 222 c.

Fixpoint noOtherCapital (s : string) : bool :=
  match s with
  | EmptyString => true
  | String c s' => negb (isOtherCapital c) && noOtherCapital s'
  end.

(** A query with neither of the LIKE wildcards, without U+0000 and with no
    capital letter outside A-Z. *)
Definition plainQuery (q : string) : bool :=
  noWildcard q && noNul q && noOtherCapital q.

(** Every character, for the facts about characters that are checked by
    running through all of them. *)
Definition allChars : list ascii := map ascii_of_nat (seq 0 256).

(** A decimal numeral: an optional sign and one or more digits. *)
Definition isDigit (c : ascii) : bool := JS.between 48 57 c.

Fixpoint allDigits (s : string) : bool :=
  match s with
  | EmptyString => true
  | String c s' => isDigit c && allDigits s'
  end.

(** A text at which a decimal numeral ends: the empty text, or one that
    starts with a character that is no digit. *)
Definition stopsNumber (s : string) : bool :=
  match s with
  | EmptyString => true
  | String c _ => negb (isDigit c)
  end.

Definition isNumeral (s : string) : bool :=
  match s with
  | String "-" s' | String "+" s' => negb (String.eqb s' "") && allDigits s'
  | _ => negb (String.eqb s "") && allDigits s
  end.

(** The requests the interface description of GET /suggestions says are
    answered 400: [q] missing or shorter than three characters, an [entity]
    outside the three names, a [limit] that is not a number or lies
    outside 1..20. *)
Definition rejectedAsDescribed (req : SearchRoute.Query) : bool :=
  match SearchRoute.q req with
  | None => true
  | Some q => (String.length q <? 3)%nat
  end
  || match SearchRoute.entity req with
     | None => false
     | Some e => negb (bool_decide (e ∈ SearchRoute.validEntities))
     end
  || match SearchRoute.limit req with
     | None => false
     | Some l =>
         negb (isNumeral l)
         || match JS.parseInt l with
            | None => true
            | Some n => (n <? 1) || (n >? 20)
            end
     end.

(** What the route does with [limit]: 10 when the parameter is absent or
    empty, else the integer [parseInt] reads at its start. *)
Definition effectiveLimit (req : SearchRoute.Query) : option Z :=
  match SearchRoute.limit req with
  | None | Some "" => Some 10
  | Some l => JS.parseInt l
  end.

(** The requests the route refuses. *)
Definition refused (req : SearchRoute.Query) : Prop :=
  SearchRoute.q req = None
  ∨ (∃ query, SearchRoute.q req = Some query ∧ (String.length query < 3)%nat)
  ∨ (∃ e, SearchRoute.entity req = Some e ∧ e ≠ "" ∧ e ∉ SearchRoute.validEntities)
  ∨ effectiveLimit req = None
  ∨ (∃ n, effectiveLimit req = Some n ∧ (n < 1 ∨ 20 < n)).

End Spec.

(** ** Reference definitions for the cart order *)

Module OrderSpec.
Import OrderRoute.

(** The product row an id resolves to. *)
Definition lookupProduct (s : Store) (id : Z) : option Product.t :=
  List.find (λ p, Product.productId p =? id) (products s).

Definition resolves (s : Store) (item : Item) : Prop :=
  is_Some (lookupProduct s (productId item)).

(** The order row of a request. *)
Definition newOrder (s : Store) (branchId : Z) (now : string) : Order.t :=
  {| Order.orderId := nextId (Order.orderId <$> orders s);
     Order.branchId := branchId; Order.orderDate := now;
     Order.status := "pending"; Order.name := ""; Order.description := "" |}.

(** The order detail rows of a request, one per item, each with the product
    it was priced from; [table] is order_details as it grows. *)
Fixpoint newDetails (lookup : Z → option Product.t) (orderId : Z)
    (cartItems : list Item) (table : list OrderDetail.t)
  : list (OrderDetail.t * Product.t) :=
  match cartItems with
  | [] => []
  | item :: rest =>
      match lookup (productId item) with
      | None => []
      | Some product =>
          let row :=
            {| OrderDetail.orderDetailId :=
                 nextId (OrderDetail.orderDetailId <$> table);
               OrderDetail.orderId := orderId;
               OrderDetail.productId := productId item;
               OrderDetail.quantity := quantity item;
               OrderDetail.unitPrice := Product.price product;
               OrderDetail.notes := "" |} in
          (row, product) :: newDetails lookup orderId rest (table ++ [row])
      end
  end.

(** The tables with one more order and its details. *)
Definition withOrder (s : Store) (o : Order.t) (details : list OrderDetail.t) : Store :=
  {| suppliers := suppliers s; products := products s;
     orders := orders s ++ [o];
     order_details := order_details s ++ details |}.

(** The connection after inserts of order details. *)
Definition withDetails (c : Conn) (rows : list OrderDetail.t) : Conn :=
  {| store := {| suppliers := suppliers (store c); products := products (store c);
                 orders := orders (store c);
                 order_details := order_details (store c) ++ rows |};
     txn := txn c |}.

(** What an order detail row must be for an item: it carries the item's
    product id and quantity, belongs to the order, and its unit price is the
    price of the product row the id resolves to in [s]. *)
Definition detailFor (s : Store) (orderId : Z) (item : Item)
    (row : OrderDetail.t * Product.t) : Prop :=
  lookupProduct s (productId item) = Some row.2
  ∧ OrderDetail.orderId row.1 = orderId
  ∧ OrderDetail.productId row.1 = productId item
  ∧ OrderDetail.quantity row.1 = quantity item
  ∧ OrderDetail.unitPrice row.1 = Product.price row.2
  ∧ OrderDetail.notes row.1 = "".

(** A request that passes the checks on its shape. *)
Definition wellFormed (req : CartOrderRequest) (branch : Z) (cartItems : list Item) : Prop :=
  branchId req = Some branch ∧ branch ≠ 0
  ∧ items req = Some cartItems ∧ cartItems ≠ [].

(** Some insert of the transaction fails. *)
Definition insertFails (fails : Write → bool) (cartItems : list Item) : Prop :=
  fails CreateOrder = true
  ∨ ∃ i, (i < length cartItems)%nat ∧ fails (CreateDetail i) = true.

(** No statement of the transaction fails. *)
Definition nothingFails (fails : Write → bool) (cartItems : list Item) : Prop :=
  fails CreateOrder = false
  ∧ (∀ i, (i < length cartItems)%nat → fails (CreateDetail i) = false)
  ∧ fails Commit = false.

End OrderSpec.

(** ** Concrete inputs used below *)

Module Cases.

(** "École", "ÉCO" and "éco": É is U+00C9 (201), é is U+00E9 (233). *)
Definition ecole : string := String "201" "cole".
Definition ECO : string := String "201" "CO".
Definition eco : string := String "233" "co".

(** A database whose only row is the product "École". *)
Definition schoolDb : Store :=
  {| suppliers := [];
     products :=
       [ {| Product.productId := 7; Product.supplierId := 1; Product.name := ecole;
            Product.description := "Primer"; Product.price := 12.5;
            Product.sku := "SCH-001"; Product.unit := "piece" |} ];
     orders := [];
     order_details := [] |}.

(** The connection of the order tests, and the time of the request. *)
Definition conn0 : OrderRoute.Conn :=
  {| OrderRoute.store := Seed.orderDb; OrderRoute.txn := None |}.

Definition now : string := "2026-02-06T18:30:00.000Z".

Definition later : string := "2026-02-07T09:00:00.000Z".

(** The cart of the tests: two widgets and one gadget. *)
Definition cart : list OrderRoute.Item :=
  [ {| OrderRoute.productId := 5; OrderRoute.quantity := 2 |};
    {| OrderRoute.productId := 12; OrderRoute.quantity := 1 |} ].

Definition cartRequest : OrderRoute.CartOrderRequest :=
  {| OrderRoute.branchId := Some 1; OrderRoute.items := Some cart |}.

(** The insert of the second order detail fails. *)
Definition secondDetailFails : OrderRoute.Write → bool :=
  λ w, match w with OrderRoute.CreateDetail 1 => true | _ => false end.

(** A cart with an unknown product, sent with [branchId: 0]. *)
Definition noBranchRequest : OrderRoute.CartOrderRequest :=
  {| OrderRoute.branchId := Some 0;
     OrderRoute.items :=
       Some [ {| OrderRoute.productId := 999; OrderRoute.quantity := 1 |} ] |}.

(** The cart of the test for an unknown product. *)
Definition unknownProductRequest : OrderRoute.CartOrderRequest :=
  {| OrderRoute.branchId := Some 1;
     OrderRoute.items :=
       Some [ {| OrderRoute.productId := 5; OrderRoute.quantity := 2 |};
              {| OrderRoute.productId := 999; OrderRoute.quantity := 1 |} ] |}.

(** A cart that asks for zero units. *)
Definition zeroQuantityRequest : OrderRoute.CartOrderRequest :=
  {| OrderRoute.branchId := Some 1;
     OrderRoute.items :=
       Some [ {| OrderRoute.productId := 5; OrderRoute.quantity := 0 |} ] |}.

(** A cart that names product 5 twice. *)
Definition repeatedCart : list OrderRoute.Item :=
  [ {| OrderRoute.productId := 5; OrderRoute.quantity := 2 |};
    {| OrderRoute.productId := 12; OrderRoute.quantity := 1 |};
    {| OrderRoute.productId := 5; OrderRoute.quantity := 3 |} ].

Definition repeatedRequest : OrderRoute.CartOrderRequest :=
  {| OrderRoute.branchId := Some 1; OrderRoute.items := Some repeatedCart |}.

(** The cart of the price test: one widget. *)
Definition widgetCart : list OrderRoute.Item :=
  [ {| OrderRoute.productId := 5; OrderRoute.quantity := 1 |} ].

Definition widgetRequest : OrderRoute.CartOrderRequest :=
  {| OrderRoute.branchId := Some 1; OrderRoute.items := Some widgetCart |}.

(** A search whose [limit] starts with a number and goes on with text. *)
Definition trailingTextQuery : SearchRoute.Query :=
  {| SearchRoute.q := Some "widget"; SearchRoute.entity := None;
     SearchRoute.limit := Some "5abc" |}.

End Cases.

(** ** Reference definitions for further properties of the search *)

Module SearchFacts.

(** The suggestions of one type, in the order they have in [l]. *)
Definition ofType (t : SuggestionType.t) (l : list SearchSuggestion)
  : list SearchSuggestion :=
  List.filter (λ s, bool_decide (type s = t)) l.

(** A query made of [%] only. *)
Fixpoint allPercent (q : string) : bool :=
  match q with
  | EmptyString => true
  | String c q' => Ascii.eqb c "%" && allPercent q'
  end.

End SearchFacts.

(** ** The read routes of the orders *)

Module OrderReads.
Import Express OrderRoute.

(** What a read route answers: [res.json(..)] with an order or with a list
    of orders, [res.status(..).send(..)] with a text, or the error it
    passes to [next]. *)
Inductive Reply :=
| JsonOrder (order : Order.t)
| JsonOrders (orders : list Order.t)
| Send (status : Z) (text : string)
| NextError (e : Exn).

(** Modelled from the spec: [ordersRepo.findById] at the Number [parseInt]
    read from the path, an integer rounded to binary64; NaN is the
    [order_id] of no row. *)
Definition findByNumber (id : option Z) : M (option Order.t) :=
  match id with
  | Some n => ordersRepo_findById n
  | None => ret None
  end.

(** Modelled from the spec: [ordersRepo.findAll], as in the repository
    template: [SELECT * FROM orders ORDER BY order_id]. *)
Definition ordersRepo_findAll : M (list Order.t) :=
  λ c, (Ok (SQLite.orderBy (λ a b, Order.orderId a <=? Order.orderId b)
              (orders (store c))), c).

(** [try { handler } catch (error) { next(error) }] *)
Definition run (handler : M Reply) : Conn → Reply * Conn :=
  λ c, match tryCatch handler (λ error, ret (NextError error)) c with
       | (Ok reply, c') => (reply, c')
       | (Throw error, c') => (NextError error, c')
       end.

(** [router.get('/:id')] *)
Definition getOrder (id : string) : Conn → Reply * Conn :=
  run (order <- findByNumber (JS.parseInt id);;
       match order with
       | Some order => ret (JsonOrder order)
       | None => ret (Send 404 "Order not found")
       end).

(** [router.get('/')]; the line it writes to the console is left out. *)
Definition getOrders : Conn → Reply * Conn :=
  run (orders <- ordersRepo_findAll;; ret (JsonOrders orders)).

End OrderReads.

(** ** Further cases *)

Module MoreCases.

(** A connection on the database of the search tests, which has three
    orders, and the same with a transaction left open. *)
Definition searchConn : OrderRoute.Conn :=
  {| OrderRoute.store := Seed.searchDb; OrderRoute.txn := None |}.

Definition openConn : OrderRoute.Conn :=
  {| OrderRoute.store := Seed.searchDb; OrderRoute.txn := Some Seed.orderDb |}.

(** The inserts go through and COMMIT fails. *)
Definition commitFails : OrderRoute.Write → bool :=
  λ w, match w with OrderRoute.Commit => true | _ => false end.

(** Searches for "widget", with and without a limit, and for a text that
    is in no row. *)
Definition widgetQuery : SearchRoute.Query :=
  {| SearchRoute.q := Some "widget"; SearchRoute.entity := None;
     SearchRoute.limit := None |}.

Definition noMatchQuery : SearchRoute.Query :=
  {| SearchRoute.q := Some "zzz"; SearchRoute.entity := Some "orders";
     SearchRoute.limit := Some "7" |}.

End MoreCases.

(** * Properties *)

Import Express.

(** ** ORDER BY sorts, and keeps every row *)

Section order_by.
Context {A : Type} (le : A → A → bool).

Lemma insertRow_Permutation (x : A) (l : list A) : SQLite.insertRow le x l ≡ₚ x :: l.
Proof.
  induction l as [|y l IH]; simpl; [done|].
  destruct (le x y); [done|]. rewrite IH. apply Permutation_swap.
Qed.

Lemma orderBy_Permutation (rows : list A) : SQLite.orderBy le rows ≡ₚ rows.
Proof.
  unfold SQLite.orderBy. induction rows as [|x rows IH]; simpl; [done|].
  by rewrite insertRow_Permutation, IH.
Qed.

Context `{!Total (λ x y, Is_true (le x y))} `{!Transitive (λ x y, Is_true (le x y))}.

Lemma insertRow_sorted (x : A) (l : list A) :
  StronglySorted (λ x y, Is_true (le x y)) l →
  StronglySorted (λ x y, Is_true (le x y)) (SQLite.insertRow le x l).
Proof.
  induction 1 as [|y l Hl IH Hy]; simpl; [by repeat constructor|].
  destruct (le x y) eqn:Hxy.
  - constructor; [by constructor|]. constructor; [by rewrite Hxy|].
    eapply Forall_impl; [exact Hy|]. intros z Hyz. simpl in Hyz.
    trans y; [by rewrite Hxy|done].
  - constructor; [done|]. rewrite insertRow_Permutation. constructor; [|done].
    destruct (total (λ x y, Is_true (le x y)) x y) as [Hle|Hle]; [|done].
    by rewrite Hxy in Hle.
Qed.

Lemma orderBy_sorted (rows : list A) :
  StronglySorted (λ x y, Is_true (le x y)) (SQLite.orderBy le rows).
Proof.
  unfold SQLite.orderBy. induction rows as [|x rows IH]; simpl; [constructor|].
  by apply insertRow_sorted.
Qed.

End order_by.

(** ** The interleaving of getSuggestions *)

Section interleaving.
Import SearchRepository.

Lemma push_option_list (all : list SearchSuggestion) x :
  push all x = all ++ option_list x.
Proof. destruct x; simpl; [done | by rewrite app_nil_r]. Qed.

Lemma slice0_take {A} (l : list A) (n : Z) :
  0 ≤ n → JS.slice0 l n = take (Z.to_nat n) l.
Proof.
  intros Hn. unfold JS.slice0.
  destruct (Z.ltb_spec n 0) as [?|_]; [lia|].
  destruct (Z.le_gt_cases n (Z.of_nat (length l))) as [Hle|Hgt].
  - by rewrite Z.min_l.
  - rewrite Z.min_r, Nat2Z.id by lia.
    rewrite !take_ge; [done | lia | lia].
Qed.

(** Leaving the loop early cuts nothing that the final [slice] keeps. *)
Lemma interleave_take a b c (limit : Z) steps : ∀ i all,
  take (Z.to_nat limit) (interleave a b c limit steps i all)
  = take (Z.to_nat limit) (all ++ flat_map (Spec.round a b c) (seq i steps)).
Proof.
  induction steps as [|steps IH]; intros i all; simpl.
  - by rewrite app_nil_r.
  - rewrite !push_option_list, <- !app_assoc.
    fold (Spec.round a b c i).
    destruct (Z.geb_spec (Z.of_nat (length (all ++ Spec.round a b c i))) limit) as [Hge|Hlt].
    + rewrite app_assoc.
      rewrite (take_app_le (all ++ Spec.round a b c i)) by lia.
      done.
    + rewrite IH. by rewrite <- app_assoc.
Qed.

Lemma getSuggestions_all_eq h db query (limit : Z) :
  0 ≤ limit →
  getSuggestions h db query None limit
  = take (Z.to_nat limit)
      (Spec.rounds
         (searchProducts h db query (JS.ceilDiv3 limit))
         (searchSuppliers db query (JS.ceilDiv3 limit))
         (searchOrders h db query (JS.ceilDiv3 limit))).
Proof.
  intros Hlimit. unfold getSuggestions.
  by rewrite slice0_take, interleave_take.
Qed.

Lemma length_sql_limit {A} (n : Z) (rows : list A) :
  0 ≤ n → Z.of_nat (length (SQLite.limit n rows)) ≤ n.
Proof.
  intros Hn. unfold SQLite.limit.
  destruct (Z.ltb_spec n 0); [lia|]. rewrite length_take. lia.
Qed.

Lemma length_searchProducts h db query (n : Z) :
  0 ≤ n → Z.of_nat (length (searchProducts h db query n)) ≤ n.
Proof. intros. unfold searchProducts, productRows. rewrite length_map.
  by apply length_sql_limit. Qed.

Lemma length_searchSuppliers db query (n : Z) :
  0 ≤ n → Z.of_nat (length (searchSuppliers db query n)) ≤ n.
Proof. intros. unfold searchSuppliers, supplierRows. rewrite length_map.
  by apply length_sql_limit. Qed.

Lemma length_searchOrders h db query (n : Z) :
  0 ≤ n → Z.of_nat (length (searchOrders h db query n)) ≤ n.
Proof. intros. unfold searchOrders, orderRows. rewrite length_map.
  by apply length_sql_limit. Qed.

Lemma ceilDiv3_spec (n : Z) : n ≤ 3 * JS.ceilDiv3 n < n + 3.
Proof. unfold JS.ceilDiv3. pose proof (Z.div_mod (n + 2) 3).
  pose proof (Z.mod_pos_bound (n + 2) 3). lia. Qed.

(** The round robin, taken list by list, is the sequence of the rounds. *)
Lemma round_tail {A} (a b c : list A) (i : nat) :
  Spec.round a b c (S i) = Spec.round (tail a) (tail b) (tail c) i.
Proof. unfold Spec.round. by rewrite !lookup_tail. Qed.

Lemma flat_map_seq_S {A} (f : nat → list A) (n : nat) : ∀ k,
  flat_map f (seq (S k) n) = flat_map (λ i, f (S i)) (seq k n).
Proof. induction n as [|n IH]; intros k; simpl; [done|]. by rewrite IH. Qed.

Lemma rounds_step {A} (a b c : list A) :
  (0 < length a + length b + length c)%nat →
  Spec.rounds a b c
  = option_list (head a) ++ option_list (head b) ++ option_list (head c)
      ++ Spec.rounds (tail a) (tail b) (tail c).
Proof.
  intros Hne. unfold Spec.rounds.
  replace (JS.max3 (length a) (length b) (length c))
    with (S (JS.max3 (length (tail a)) (length (tail b)) (length (tail c))))
    by (unfold JS.max3; destruct a, b, c; simpl in *; lia).
  change (seq 0 (S ?n)) with (0%nat :: seq 1 n). simpl flat_map.
  rewrite flat_map_seq_S.
  rewrite (flat_map_ext _ _ (round_tail a b c)).
  unfold Spec.round at 1. rewrite <- !head_lookup. by rewrite <- !app_assoc.
Qed.

Lemma rounds_last {A} (c : list A) : Spec.rounds [] [] c = c.
Proof.
  induction c as [|z c IH]; [done|].
  rewrite rounds_step by (simpl; lia). simpl. by rewrite IH.
Qed.

Lemma roundRobin2_rounds {A} (b : list A) : ∀ c,
  Spec.roundRobin2 b c = Spec.rounds [] b c.
Proof.
  induction b as [|y b IH]; intros c; simpl.
  - by rewrite rounds_last.
  - rewrite rounds_step by (simpl; lia). simpl. by rewrite IH.
Qed.

Lemma roundRobin_rounds {A} (a : list A) : ∀ b c,
  Spec.roundRobin a b c = Spec.rounds a b c.
Proof.
  induction a as [|x a IH]; intros b c; simpl.
  - apply roundRobin2_rounds.
  - rewrite rounds_step by (simpl; lia). simpl. by rewrite IH.
Qed.

(** C1: with no entity filter, a query of three characters or more and a
    limit between 1 and 20, getSuggestions returns the round-robin
    interleaving (products, then suppliers, then orders, position by
    position, lists that ran out skipped) of the three per-entity results,
    each searched with the limit [ceil(limit/3)], cut at [limit] entries. *)
Theorem getSuggestions_round_robin h db query (limit : Z) :
  (3 ≤ String.length query)%nat →
  1 ≤ limit ≤ 20 →
  let perEntityLimit := JS.ceilDiv3 limit in
  let products := searchProducts h db query perEntityLimit in
  let suppliers := searchSuppliers db query perEntityLimit in
  let orders := searchOrders h db query perEntityLimit in
  limit ≤ 3 * perEntityLimit < limit + 3
  ∧ Z.of_nat (length products) ≤ perEntityLimit
  ∧ Z.of_nat (length suppliers) ≤ perEntityLimit
  ∧ Z.of_nat (length orders) ≤ perEntityLimit
  ∧ getSuggestions h db query None limit
    = take (Z.to_nat limit) (Spec.roundRobin products suppliers orders)
  ∧ Z.of_nat (length (getSuggestions h db query None limit)) ≤ limit.
Proof.
  intros _ [Hlo Hhi]. cbv zeta.
  pose proof (ceilDiv3_spec limit) as Hceil.
  assert (0 ≤ JS.ceilDiv3 limit) as Hper by lia.
  split; [done|].
  split; [by apply length_searchProducts|].
  split; [by apply length_searchSuppliers|].
  split; [by apply length_searchOrders|].
  rewrite roundRobin_rounds, getSuggestions_all_eq by lia.
  split; [done|]. rewrite length_take. lia.
Qed.

(** *** More than one type among the suggestions *)

Lemma orderBy_nonempty {A} (le : A → A → bool) (rows : list A) :
  rows ≠ [] → SQLite.orderBy le rows ≠ [].
Proof.
  intros Hne Hnil. apply Hne, Permutation_nil_r.
  by rewrite <- Hnil, orderBy_Permutation.
Qed.

Lemma limit_nonempty {A} (n : Z) (rows : list A) :
  1 ≤ n → rows ≠ [] → SQLite.limit n rows ≠ [].
Proof.
  intros Hn Hne. unfold SQLite.limit.
  destruct (Z.ltb_spec n 0); [lia|].
  destruct rows as [|r rows]; [done|].
  destruct (Z.to_nat n) as [|k] eqn:Hk; [lia|done].
Qed.

Lemma searchProducts_nonempty h db query (n : Z) :
  1 ≤ n → Spec.matchingProducts db query ≠ [] → searchProducts h db query n ≠ [].
Proof.
  intros Hn Hne. unfold searchProducts, productRows.
  pose proof (limit_nonempty n _ Hn
    (orderBy_nonempty (productOrder (JS.toLowerCase query)) _ Hne)) as Hrows.
  unfold Spec.matchingProducts in Hrows.
  by destruct (SQLite.limit n _).
Qed.

Lemma searchSuppliers_nonempty db query (n : Z) :
  1 ≤ n → Spec.matchingSuppliers db query ≠ [] → searchSuppliers db query n ≠ [].
Proof.
  intros Hn Hne. unfold searchSuppliers, supplierRows.
  pose proof (limit_nonempty n _ Hn
    (orderBy_nonempty (supplierOrder (JS.toLowerCase query)) _ Hne)) as Hrows.
  unfold Spec.matchingSuppliers in Hrows.
  by destruct (SQLite.limit n _).
Qed.

Lemma searchOrders_nonempty h db query (n : Z) :
  1 ≤ n → Spec.matchingOrders db query ≠ [] → searchOrders h db query n ≠ [].
Proof.
  intros Hn Hne. unfold searchOrders, orderRows.
  pose proof (limit_nonempty n _ Hn
    (orderBy_nonempty (orderOrder (JS.toLowerCase query)) _ Hne)) as Hrows.
  unfold Spec.matchingOrders in Hrows.
  by destruct (SQLite.limit n _).
Qed.

Lemma searchProducts_type h db query n :
  Forall (λ s, type s = SuggestionType.product) (searchProducts h db query n).
Proof. unfold searchProducts. induction (productRows db query n); by constructor. Qed.

Lemma searchSuppliers_type db query n :
  Forall (λ s, type s = SuggestionType.supplier) (searchSuppliers db query n).
Proof. unfold searchSuppliers. induction (supplierRows db query n); by constructor. Qed.

Lemma searchOrders_type h db query n :
  Forall (λ s, type s = SuggestionType.order) (searchOrders h db query n).
Proof. unfold searchOrders. induction (orderRows db query n); by constructor. Qed.

(** The first round of the interleaving heads the result. *)
Lemma roundRobin_head (a b c : list SearchSuggestion) :
  a ≠ [] ∨ b ≠ [] ∨ c ≠ [] →
  ∃ rest, Spec.rounds a b c
          = option_list (head a) ++ option_list (head b) ++ option_list (head c) ++ rest.
Proof.
  intros Hne. unfold Spec.rounds, JS.max3.
  destruct (Nat.max _ _) as [|k] eqn:Hk.
  { destruct a, b, c; simpl in *; try lia. naive_solver. }
  simpl. unfold Spec.round. rewrite !head_lookup, <- !app_assoc. eauto.
Qed.

(** Two entries suffice to show two types when two of the lists have a
    head. *)
Lemma roundRobin_two_types (ps ss os : list SearchSuggestion) (k : nat) :
  Forall (λ s, type s = SuggestionType.product) ps →
  Forall (λ s, type s = SuggestionType.supplier) ss →
  Forall (λ s, type s = SuggestionType.order) os →
  (ps ≠ [] ∧ ss ≠ []) ∨ (ps ≠ [] ∧ os ≠ []) ∨ (ss ≠ [] ∧ os ≠ []) →
  ∃ s1 s2,
    s1 ∈ take (S (S k)) (Spec.rounds ps ss os)
    ∧ s2 ∈ take (S (S k)) (Spec.rounds ps ss os)
    ∧ type s1 ≠ type s2.
Proof.
  intros Hp Hs Ho Htwo.
  destruct (roundRobin_head ps ss os) as [rest ->]; [naive_solver|].
  destruct ps as [|p ps], ss as [|s ss], os as [|o os];
    try (exfalso; naive_solver); simpl;
    repeat match goal with
           | H : Forall _ (_ :: _) |- _ => apply Forall_cons in H as [? _]
           end.
  - exists s, o. split_and!; [by repeat constructor..|congruence].
  - exists p, o. split_and!; [by repeat constructor..|congruence].
  - exists p, s. split_and!; [by repeat constructor..|congruence].
  - exists p, s. split_and!; [by repeat constructor..|congruence].
Qed.

(** C7, amended: with no entity filter, a query of three characters or
    more and a limit between 2 and 20, if rows match in at least two of the
    three tables then the suggestions are not all of one type. *)
Theorem suggestions_mix_types h db query (limit : Z) :
  (3 ≤ String.length query)%nat →
  2 ≤ limit ≤ 20 →
  (Spec.matchingProducts db query ≠ [] ∧ Spec.matchingSuppliers db query ≠ [])
  ∨ (Spec.matchingProducts db query ≠ [] ∧ Spec.matchingOrders db query ≠ [])
  ∨ (Spec.matchingSuppliers db query ≠ [] ∧ Spec.matchingOrders db query ≠ []) →
  ∃ s1 s2,
    s1 ∈ getSuggestions h db query None limit
    ∧ s2 ∈ getSuggestions h db query None limit
    ∧ type s1 ≠ type s2.
Proof.
  intros _ [Hlo Hhi] Htwo.
  rewrite getSuggestions_all_eq by lia.
  pose proof (ceilDiv3_spec limit) as Hceil.
  assert (1 ≤ JS.ceilDiv3 limit) as Hper by lia.
  destruct (Z.to_nat limit) as [|[|k]] eqn:HL; [lia|lia|].
  apply roundRobin_two_types;
    [apply searchProducts_type | apply searchSuppliers_type
    | apply searchOrders_type |].
  pose proof (searchProducts_nonempty h db query _ Hper).
  pose proof (searchSuppliers_nonempty db query _ Hper).
  pose proof (searchOrders_nonempty h db query _ Hper).
  tauto.
Qed.

End interleaving.

(** ** LIKE, LOWER and toLowerCase *)

Section like.
Import SQLite.

Lemma in_allChars (c : ascii) : In c Spec.allChars.
Proof.
  unfold Spec.allChars. apply in_map_iff. exists (nat_of_ascii c). split.
  - apply ascii_nat_embedding.
  - apply in_seq. pose proof (nat_ascii_bounded c). lia.
Qed.

Lemma forall_chars (P : ascii → bool) :
  forallb P Spec.allChars = true → ∀ c, P c = true.
Proof. intros H c. eapply forallb_forall in H; [done | apply in_allChars]. Qed.

Lemma forall_chars2 (P : ascii → ascii → bool) :
  forallb (λ a, forallb (P a) Spec.allChars) Spec.allChars = true →
  ∀ a b, P a b = true.
Proof. intros H a b. by apply forall_chars, (forall_chars _ H). Qed.

(** Against a text that went through LOWER, LIKE compares a pattern
    character as LOWER of it. *)
Lemma likeChar_lowered (p c : ascii) :
  likeChar p (lowerChar c) = Ascii.eqb (lowerChar p) (lowerChar c).
Proof.
  apply Bool.eqb_prop. revert p c. apply forall_chars2. by vm_compute.
Qed.

Lemma likeChar_lower_pattern (p c : ascii) :
  likeChar (lowerChar p) c = likeChar p c.
Proof.
  apply Bool.eqb_prop. revert p c. apply forall_chars2. by vm_compute.
Qed.

Lemma isWildcard_lowerChar (c : ascii) :
  Spec.isWildcard (lowerChar c) = Spec.isWildcard c.
Proof. apply Bool.eqb_prop. revert c. apply forall_chars. by vm_compute. Qed.

Lemma lowerChar_idem (c : ascii) : lowerChar (lowerChar c) = lowerChar c.
Proof.
  apply Ascii.eqb_eq. revert c. apply forall_chars. by vm_compute.
Qed.

Lemma toLowerCaseChar_ascii (c : ascii) :
  JS.between 0 127 c = true → JS.toLowerCaseChar c = lowerChar c.
Proof.
  intros H. apply Ascii.eqb_eq. revert c H.
  enough (∀ c, implb (JS.between 0 127 c)
                 (Ascii.eqb (JS.toLowerCaseChar c) (lowerChar c)) = true) as Hall.
  { intros c Hc. specialize (Hall c). by rewrite Hc in Hall. }
  apply forall_chars. by vm_compute.
Qed.

Lemma lower_idem (s : string) : lower (lower s) = lower s.
Proof. induction s as [|c s IH]; simpl; [done|]. by rewrite lowerChar_idem, IH. Qed.

Lemma noWildcard_lower (s : string) : Spec.noWildcard (lower s) = Spec.noWildcard s.
Proof.
  induction s as [|c s IH]; simpl; [done|]. by rewrite isWildcard_lowerChar, IH.
Qed.

Lemma toLowerCase_ascii (s : string) :
  Spec.isAscii s = true → JS.toLowerCase s = lower s.
Proof.
  induction s as [|c s IH]; simpl; [done|].
  intros [Hc Hs]%andb_prop. by rewrite toLowerCaseChar_ascii, IH.
Qed.

Lemma toLowerCaseChar_plain (c : ascii) :
  Spec.isOtherCapital c = false → JS.toLowerCaseChar c = lowerChar c.
Proof.
  intros H. apply Ascii.eqb_eq. revert c H.
  enough (∀ c, implb (negb (Spec.isOtherCapital c))
                 (Ascii.eqb (JS.toLowerCaseChar c) (lowerChar c)) = true) as Hall.
  { intros c Hc. specialize (Hall c). by rewrite Hc in Hall. }
  apply forall_chars. by vm_compute.
Qed.

Lemma toLowerCase_plain (s : string) :
  Spec.noOtherCapital s = true → JS.toLowerCase s = lower s.
Proof.
  induction s as [|c s IH]; simpl; [done|].
  intros [Hc Hs]%andb_prop. apply negb_true_iff in Hc.
  by rewrite toLowerCaseChar_plain, IH.
Qed.

(** The unfolding of the comparison at a pattern character that is no
    wildcard. *)
Lemma patternCompare_cons_plain (p : ascii) (pattern text : string) :
  Spec.isWildcard p = false →
  patternCompare (String p pattern) text
  = match text with
    | EmptyString => false
    | String c text' => likeChar p c && patternCompare pattern text'
    end.
Proof.
  destruct p as [[] [] [] [] [] [] [] []]; (discriminate || reflexivity).
Qed.

Lemma patternCompare_percent (pattern text : string) :
  patternCompare (String "%" pattern) text
  = patternCompare pattern text
    || match text with
       | EmptyString => false
       | String _ text' => patternCompare (String "%" pattern) text'
       end.
Proof. by destruct text. Qed.

Lemma patternCompare_percent_only (text : string) : patternCompare "%" text = true.
Proof.
  induction text as [|c text IH]; [done|].
  rewrite patternCompare_percent, IH. by rewrite orb_true_r.
Qed.

Lemma prefix_cons (a b : ascii) (s1 s2 : string) :
  String.prefix (String a s1) (String b s2) = Ascii.eqb a b && String.prefix s1 s2.
Proof.
  simpl. destruct (ascii_dec a b) as [->|Hne].
  - by rewrite Ascii.eqb_refl.
  - apply Ascii.eqb_neq in Hne. by rewrite Hne.
Qed.

(** Against a text that went through LOWER, the pattern [p%] asks for a
    text that starts with LOWER of [p], when [p] has no wildcard. *)
Lemma patternCompare_prefix (p : string) : ∀ text,
  Spec.noWildcard p = true →
  patternCompare (p +:+ "%") (lower text) = String.prefix (lower p) (lower text).
Proof.
  induction p as [|a p IH]; intros text Hp.
  - change ("" +:+ "%") with "%". rewrite patternCompare_percent_only.
    by destruct (lower text).
  - simpl in Hp. apply andb_prop in Hp as [Ha Hp]. apply negb_true_iff in Ha.
    change (String a p +:+ "%") with (String a (p +:+ "%")).
    rewrite patternCompare_cons_plain by done.
    destruct text as [|c text]; [done|].
    simpl lower. by rewrite prefix_cons, likeChar_lowered, IH.
Qed.

(** And the pattern [%p%] asks for a text that contains LOWER of [p]. *)
Lemma patternCompare_contains (p text : string) :
  Spec.noWildcard p = true →
  patternCompare ("%" +:+ p +:+ "%") (lower text)
  = Spec.contains (lower p) (lower text).
Proof.
  intros Hp. change ("%" +:+ p +:+ "%") with (String "%" (p +:+ "%")).
  induction text as [|c text IH].
  - rewrite patternCompare_percent, patternCompare_prefix by done. reflexivity.
  - rewrite patternCompare_percent, patternCompare_prefix by done.
    simpl lower. simpl Spec.contains. by rewrite <- IH.
Qed.

(** The case of the letters A-Z in a pattern does not matter. *)
Lemma patternCompare_lower_pattern (pattern : string) : ∀ text,
  patternCompare (lower pattern) text = patternCompare pattern text.
Proof.
  induction pattern as [|p pattern IH]; intros text; [done|].
  simpl lower.
  destruct (Spec.isWildcard p) eqn:Hw.
  - assert (lowerChar p = p) as ->.
    { apply orb_prop in Hw as [->%Ascii.eqb_eq| ->%Ascii.eqb_eq]; reflexivity. }
    apply orb_prop in Hw as [->%Ascii.eqb_eq| ->%Ascii.eqb_eq].
    + induction text as [|c text IHt].
      * rewrite !patternCompare_percent. by rewrite IH.
      * rewrite (patternCompare_percent (lower pattern)),
          (patternCompare_percent pattern).
        by rewrite IH, IHt.
    + destruct text; simpl; [done|apply IH].
  - rewrite !patternCompare_cons_plain by (by rewrite ?isWildcard_lowerChar).
    destruct text as [|c text]; [done|].
    by rewrite likeChar_lower_pattern, IH.
Qed.

(** *** The zero byte *)

Lemma code_lowerChar_zero (c : ascii) :
  (JS.code (lowerChar c) =? 0)%N = (JS.code c =? 0)%N.
Proof. apply Bool.eqb_prop. revert c. apply forall_chars. by vm_compute. Qed.

Lemma cString_upToNul (s : string) : cString s = Spec.upToNul s.
Proof. induction s as [|c s IH]; simpl; [done|]. by rewrite IH. Qed.

Lemma cString_lower (s : string) : cString (lower s) = lower (cString s).
Proof.
  induction s as [|c s IH]; simpl; [done|].
  rewrite code_lowerChar_zero. destruct (JS.code c =? 0)%N; simpl; [done|].
  by rewrite IH.
Qed.

Lemma noNul_lower (s : string) : Spec.noNul (lower s) = Spec.noNul s.
Proof.
  induction s as [|c s IH]; simpl; [done|].
  rewrite IH. f_equal. f_equal. apply code_lowerChar_zero.
Qed.

Lemma cString_append (a b : string) :
  Spec.noNul a = true → cString (a +:+ b) = a +:+ cString b.
Proof.
  induction a as [|c a IH]; [done|].
  change (String c a +:+ b) with (String c (a +:+ b)). simpl.
  intros [Hc Ha]%andb_prop. apply negb_true_iff in Hc.
  unfold JS.code. rewrite Hc. by rewrite IH.
Qed.

Lemma cString_noNul (s : string) : Spec.noNul s = true → cString s = s.
Proof.
  induction s as [|c s IH]; simpl; [done|].
  intros [Hc Hs]%andb_prop. apply negb_true_iff in Hc.
  unfold JS.code. rewrite Hc. by rewrite IH.
Qed.

(** A text starts with a word that has no zero byte exactly when its
    C string does. *)
Lemma prefix_cString (q : string) : ∀ text,
  Spec.noNul q = true → String.prefix q (cString text) = String.prefix q text.
Proof.
  induction q as [|a q IH]; intros text Hq.
  - destruct text as [|c text]; [done|]. simpl cString.
    by destruct (JS.code c =? 0)%N.
  - simpl in Hq. apply andb_prop in Hq as [Ha Hq]. apply negb_true_iff in Ha.
    destruct text as [|c text]; [done|]. simpl cString.
    destruct (JS.code c =? 0)%N eqn:Hc.
    + rewrite prefix_cons.
      assert (Ascii.eqb a c = false) as ->; [|done].
      apply Ascii.eqb_neq. intros ->. unfold JS.code in Hc. congruence.
    + by rewrite !prefix_cons, IH.
Qed.

(** *** LIKE on the operands of the queries *)

Lemma like_lower_pattern (pattern text : string) :
  like (lower pattern) text = like pattern text.
Proof. unfold like. by rewrite cString_lower, patternCompare_lower_pattern. Qed.

(** [LOWER(text) LIKE 'p%'] is "LOWER(text) starts with LOWER(p)" when [p]
    has no wildcard and no zero byte. *)
Lemma like_prefix (p text : string) :
  Spec.noWildcard p = true → Spec.noNul p = true →
  like (p +:+ "%") (lower text) = String.prefix (lower p) (lower text).
Proof.
  intros Hw Hz. unfold like.
  rewrite cString_append, cString_lower, patternCompare_prefix by done.
  rewrite <- cString_lower. apply prefix_cString. by rewrite noNul_lower.
Qed.

(** [LOWER(text) LIKE '%p%'] is "LOWER(text), up to its first zero byte,
    contains LOWER(p)" when [p] has no wildcard and no zero byte. *)
Lemma like_contains (p text : string) :
  Spec.noWildcard p = true → Spec.noNul p = true →
  like ("%" +:+ p +:+ "%") (lower text) = Spec.contains (lower p) (Spec.searched text).
Proof.
  intros Hw Hz. unfold like, Spec.searched.
  assert (cString ("%" +:+ p +:+ "%") = "%" +:+ p +:+ "%") as ->.
  { rewrite (cString_append "%") by done. by rewrite cString_append. }
  rewrite cString_lower, <- (cString_upToNul text).
  by apply patternCompare_contains.
Qed.

End like.

(** ** ORDER BY: the comparisons are total preorders *)

Section ordering.

Lemma ascii_compare_N (a b : ascii) :
  Ascii.compare a b = N.compare (N_of_ascii a) (N_of_ascii b).
Proof. reflexivity. Qed.

Lemma string_compare_trans (s1 : string) : ∀ s2 s3,
  String.compare s1 s2 ≠ Gt → String.compare s2 s3 ≠ Gt →
  String.compare s1 s3 ≠ Gt.
Proof.
  induction s1 as [|a s1 IH]; intros [|b s2] [|c s3]; simpl; try done.
  rewrite !ascii_compare_N.
  destruct (N.compare_spec (N_of_ascii a) (N_of_ascii b)) as [Hab|Hab|Hab];
    destruct (N.compare_spec (N_of_ascii b) (N_of_ascii c)) as [Hbc|Hbc|Hbc];
    destruct (N.compare_spec (N_of_ascii a) (N_of_ascii c)) as [Hac|Hac|Hac];
    try done; try lia.
  apply IH.
Qed.

Lemma string_leb_trans (s1 s2 s3 : string) :
  String.leb s1 s2 = true → String.leb s2 s3 = true → String.leb s1 s3 = true.
Proof.
  unfold String.leb. intros H12 H23.
  pose proof (string_compare_trans s1 s2 s3) as Htrans.
  destruct (String.compare s1 s2), (String.compare s2 s3),
    (String.compare s1 s3); try done; exfalso; by apply Htrans.
Qed.

Context {A : Type} (rank : A → Z) (le2 : A → A → bool).
Context (le2_total : ∀ a b, le2 a b = true ∨ le2 b a = true).
Context (le2_trans : ∀ a b c, le2 a b = true → le2 b c = true → le2 a c = true).

#[local] Abbreviation lexLe := (Spec.lexLe rank le2).

Lemma lexLe_spec (a b : A) :
  lexLe a b = true ↔ rank a < rank b ∨ (rank a = rank b ∧ le2 a b = true).
Proof.
  unfold Spec.lexLe.
  rewrite orb_true_iff, andb_true_iff, Z.ltb_lt, Z.eqb_eq. tauto.
Qed.

#[local] Instance lexLe_total : Total (λ a b, Is_true (lexLe a b)).
Proof.
  intros a b. rewrite !Is_true_true, !lexLe_spec.
  destruct (le2_total a b); destruct (Z.lt_trichotomy (rank a) (rank b)) as [?|[?|?]];
    auto with lia.
Qed.

#[local] Instance lexLe_trans : Transitive (λ a b, Is_true (lexLe a b)).
Proof.
  intros a b c. rewrite !Is_true_true, !lexLe_spec.
  intros [?|[? ?]] [?|[? ?]]; eauto with lia.
Qed.

Lemma StronglySorted_mono (R1 R2 : relation A) (l : list A) :
  (∀ a b, R1 a b → R2 a b) → StronglySorted R1 l → StronglySorted R2 l.
Proof.
  intros Himpl. induction 1 as [|x l Hl IH Hx]; constructor; [done|].
  eapply Forall_impl; [exact Hx | by auto].
Qed.

(** WHERE, ORDER BY and LIMIT over a table: the rows kept are the first [n]
    of a ranking of all the rows that match. *)
Lemma select_ranked (wh wh' : A → bool) (R : relation A) (table : list A) (n : Z) :
  0 ≤ n →
  (∀ row, wh row = wh' row) →
  (∀ a b, lexLe a b = true → R a b) →
  ∃ ranked,
    ranked ≡ₚ List.filter wh' table
    ∧ StronglySorted R ranked
    ∧ SQLite.limit n (SQLite.orderBy lexLe (List.filter wh table))
      = take (Z.to_nat n) ranked.
Proof.
  intros Hn Hwh HR.
  exists (SQLite.orderBy lexLe (List.filter wh table)). split_and!.
  - rewrite orderBy_Permutation.
    by rewrite (filter_ext wh wh').
  - eapply StronglySorted_mono; [|apply orderBy_sorted; apply _].
    intros a b Hab. by apply HR, Is_true_true.
  - unfold SQLite.limit. destruct (Z.ltb_spec n 0); [lia|done].
Qed.

End ordering.

(** ** The three per-entity searches *)

Section ranking.
Import SearchRepository.

Lemma plainQuery_spec (q : string) :
  Spec.plainQuery q = true →
  Spec.noWildcard q = true ∧ Spec.noNul q = true ∧ Spec.noOtherCapital q = true.
Proof. by intros [[? ?]%andb_prop ?]%andb_prop. Qed.

Lemma nameWhere_spec (q name : string) :
  Spec.noWildcard q = true → Spec.noNul q = true →
  nameWhere ("%" +:+ q +:+ "%") name = Spec.contains (SQLite.lower q) (Spec.searched name).
Proof. intros Hq Hz. unfold nameWhere. by apply like_contains. Qed.

Lemma productWhere_spec (q : string) (row : Product.t) :
  Spec.noWildcard q = true → Spec.noNul q = true →
  productWhere ("%" +:+ q +:+ "%") row = Spec.productMatches (SQLite.lower q) row.
Proof.
  intros Hq Hz. unfold productWhere, Spec.productMatches.
  by rewrite !like_contains.
Qed.

Lemma nameRelevance_spec (q name : string) :
  Spec.plainQuery q = true →
  nameRelevance (JS.toLowerCase q) name = Spec.tier (SQLite.lower q) (SQLite.lower name).
Proof.
  intros (Hq & Hz & Hcap)%plainQuery_spec. unfold nameRelevance, Spec.tier.
  rewrite toLowerCase_plain by done.
  rewrite like_prefix by (by rewrite ?noWildcard_lower, ?noNul_lower).
  by rewrite lower_idem.
Qed.

Lemma productRelevance_spec (q : string) (row : Product.t) :
  Spec.plainQuery q = true →
  productRelevance (JS.toLowerCase q) row = Spec.productTier (SQLite.lower q) row.
Proof.
  intros (Hq & Hz & Hcap)%plainQuery_spec.
  unfold productRelevance, Spec.productTier, Spec.tier.
  rewrite toLowerCase_plain by done.
  rewrite !like_prefix by (by rewrite ?noWildcard_lower, ?noNul_lower).
  rewrite lower_idem.
  destruct (_ =? _)%string, (_ =? _)%string, (String.prefix _ _), (String.prefix _ _);
    reflexivity.
Qed.

(** C3, amended: for a query that has none of [%], [_] and U+0000 and no
    capital letter outside A-Z, and a limit [n] that is not negative, each
    per-entity search returns the first [n] entries of a ranking of exactly
    the rows whose name (for a product: name or SKU), read up to its first
    U+0000 if it has one, contains the query, letters A-Z folded on both
    sides.  The ranking goes up by tier (1 = the name equal to the query,
    2 = starts with it, 3 = any other, all after the same folding), rows of
    one tier by name in the order of the character codes, orders of one
    tier by order date, latest first. *)
Theorem per_entity_search_ranked h db q (n : Z) :
  Spec.plainQuery q = true →
  0 ≤ n →
  let fq := SQLite.lower q in
  (∃ ranked,
      ranked ≡ₚ List.filter (Spec.productMatches fq) (products db)
      ∧ StronglySorted (Spec.byTierThenName (Spec.productTier fq) Product.name) ranked
      ∧ searchProducts h db q n = map (productSuggestion h) (take (Z.to_nat n) ranked))
  ∧ (∃ ranked,
      ranked ≡ₚ List.filter
                  (λ row, Spec.contains fq (Spec.searched (Supplier.name row)))
                  (suppliers db)
      ∧ StronglySorted
          (Spec.byTierThenName (λ row, Spec.tier fq (SQLite.lower (Supplier.name row)))
             Supplier.name) ranked
      ∧ searchSuppliers db q n = map supplierSuggestion (take (Z.to_nat n) ranked))
  ∧ (∃ ranked,
      ranked ≡ₚ List.filter
                  (λ row, Spec.contains fq (Spec.searched (Order.name row)))
                  (orders db)
      ∧ StronglySorted
          (Spec.byTierThenLatest (λ row, Spec.tier fq (SQLite.lower (Order.name row)))
             Order.orderDate) ranked
      ∧ searchOrders h db q n = map (orderSuggestion h) (take (Z.to_nat n) ranked)).
Proof.
  intros Hplain Hn fq.
  destruct (plainQuery_spec q Hplain) as (Hq & Hz & _).
  split_and!.
  - destruct (select_ranked (productRelevance (JS.toLowerCase q))
                (λ a b, String.leb (Product.name a) (Product.name b))
                (λ a b, String.leb_total _ _)
                (λ a b c, string_leb_trans _ _ _)
                (productWhere ("%" +:+ q +:+ "%")) (Spec.productMatches fq)
                (Spec.byTierThenName (Spec.productTier fq) Product.name)
                (products db) n Hn) as (ranked & Hperm & Hsorted & Hrows).
    + intros row. by apply productWhere_spec.
    + intros a b [Hlt|[Heq Hle]]%lexLe_spec;
        rewrite !productRelevance_spec in * by done; [by left|by right].
    + exists ranked. split_and!; [done..|].
      unfold searchProducts, productRows. by rewrite <- Hrows.
  - destruct (select_ranked (λ row, nameRelevance (JS.toLowerCase q) (Supplier.name row))
                (λ a b, String.leb (Supplier.name a) (Supplier.name b))
                (λ a b, String.leb_total _ _)
                (λ a b c, string_leb_trans _ _ _)
                (λ row, nameWhere ("%" +:+ q +:+ "%") (Supplier.name row))
                (λ row, Spec.contains fq (Spec.searched (Supplier.name row)))
                (Spec.byTierThenName
                   (λ row, Spec.tier fq (SQLite.lower (Supplier.name row))) Supplier.name)
                (suppliers db) n Hn) as (ranked & Hperm & Hsorted & Hrows).
    + intros row. by apply nameWhere_spec.
    + intros a b [Hlt|[Heq Hle]]%lexLe_spec;
        rewrite !nameRelevance_spec in * by done; [by left|by right].
    + exists ranked. split_and!; [done..|].
      unfold searchSuppliers, supplierRows. by rewrite <- Hrows.
  - destruct (select_ranked (λ row, nameRelevance (JS.toLowerCase q) (Order.name row))
                (λ a b, String.leb (Order.orderDate b) (Order.orderDate a))
                (λ a b, String.leb_total _ _)
                (λ a b c Hab Hbc, string_leb_trans _ _ _ Hbc Hab)
                (λ row, nameWhere ("%" +:+ q +:+ "%") (Order.name row))
                (λ row, Spec.contains fq (Spec.searched (Order.name row)))
                (Spec.byTierThenLatest
                   (λ row, Spec.tier fq (SQLite.lower (Order.name row))) Order.orderDate)
                (orders db) n Hn) as (ranked & Hperm & Hsorted & Hrows).
    + intros row. by apply nameWhere_spec.
    + intros a b [Hlt|[Heq Hle]]%lexLe_spec;
        rewrite !nameRelevance_spec in * by done; [by left|by right].
    + exists ranked. split_and!; [done..|].
      unfold searchOrders, orderRows. by rewrite <- Hrows.
Qed.

End ranking.

(** ** Case-insensitive search *)

Section case_folding.
Import SearchRepository.

Lemma lower_append (a b : string) :
  SQLite.lower (a +:+ b) = SQLite.lower a +:+ SQLite.lower b.
Proof.
  induction a as [|c a IH]; [done|].
  change (String c a +:+ b) with (String c (a +:+ b)). simpl. by rewrite IH.
Qed.

(** A query and its LOWER form select the same rows. *)
Lemma searchPattern_lower (q text : string) :
  SQLite.like ("%" +:+ SQLite.lower q +:+ "%") text
  = SQLite.like ("%" +:+ q +:+ "%") text.
Proof.
  rewrite <- (like_lower_pattern ("%" +:+ q +:+ "%")).
  change ("%" +:+ q +:+ "%") with (String "%" (q +:+ "%")).
  simpl SQLite.lower. by rewrite lower_append.
Qed.

Lemma toLowerCase_idem (q : string) :
  JS.toLowerCase (JS.toLowerCase q) = JS.toLowerCase q.
Proof.
  induction q as [|c q IH]; simpl; [done|]. rewrite IH. f_equal.
  apply Ascii.eqb_eq. revert c. apply forall_chars. by vm_compute.
Qed.

(** For a query of characters below 128 the case of the query plays no
    part: it gives the suggestions of its lower-case form. *)
Lemma getSuggestions_case_insensitive_ascii h db q entityType (limit : Z) :
  Spec.isAscii q = true →
  getSuggestions h db (JS.toLowerCase q) entityType limit
  = getSuggestions h db q entityType limit.
Proof.
  intros Hq.
  assert (∀ n, productRows db (JS.toLowerCase q) n = productRows db q n) as HP.
  { intros n. unfold productRows. rewrite toLowerCase_idem.
    do 2 f_equal. apply filter_ext. intros row. unfold productWhere.
    by rewrite toLowerCase_ascii, !searchPattern_lower. }
  assert (∀ n, supplierRows db (JS.toLowerCase q) n = supplierRows db q n) as HS.
  { intros n. unfold supplierRows. rewrite toLowerCase_idem.
    do 2 f_equal. apply filter_ext. intros row. unfold nameWhere.
    by rewrite toLowerCase_ascii, searchPattern_lower. }
  assert (∀ n, orderRows db (JS.toLowerCase q) n = orderRows db q n) as HO.
  { intros n. unfold orderRows. rewrite toLowerCase_idem.
    do 2 f_equal. apply filter_ext. intros row. unfold nameWhere.
    by rewrite toLowerCase_ascii, searchPattern_lower. }
  unfold getSuggestions, searchProducts, searchSuppliers, searchOrders.
  by rewrite !HP, !HS, !HO.
Qed.

(** C6 (the code departs from the claim): the pattern of the WHERE clause
    is built from the query as typed, not from its lower-case form, and LIKE
    folds the letters A-Z only.  With the product "École" in the table, the
    query "ÉCO" finds it and its lower-case form "éco" finds nothing. *)
Theorem search_depends_on_case_of_query :
  (3 ≤ String.length Cases.ECO)%nat
  ∧ JS.toLowerCase Cases.ECO = Cases.eco
  ∧ text <$> getSuggestions Seed.host Cases.schoolDb Cases.ECO None 10 = [Cases.ecole]
  ∧ getSuggestions Seed.host Cases.schoolDb Cases.eco None 10 = [].
Proof. vm_compute. split_and!; (lia || reflexivity). Qed.

End case_folding.

(** ** GET /suggestions: which requests are refused *)

Section search_route.
Import SearchRoute.

Lemma truthy_false (s : option string) : truthy s = false ↔ s = None ∨ s = Some "".
Proof. destruct s as [[|c s]|]; simpl; naive_solver. Qed.

Lemma truthy_true (s : option string) :
  truthy s = true ↔ ∃ t, s = Some t ∧ t ≠ "".
Proof. destruct s as [[|c s]|]; simpl; naive_solver. Qed.

Lemma effectiveLimit_route (req : Query) :
  (if truthy (limit req) then JS.parseInt (default "" (limit req)) else Some 10)
  = Spec.effectiveLimit req.
Proof. unfold Spec.effectiveLimit. by destruct (limit req) as [[|c s]|]. Qed.

(** The route on requests that send each parameter at most once.  It
    answers 400 with the body [{error: {code: "VALIDATION_ERROR", message}}]
    exactly when [q] is missing or shorter than three characters, [entity]
    is a non-empty string that is none of products, suppliers, orders, or
    [limit] is a non-empty string from whose start [parseInt] reads no
    integer or one outside 1..20.  Every other such request is answered 200
    with the query and the suggestions for it, under the limit read, 10
    when [limit] is absent or empty. *)
Lemma suggestions_route_responses h db (req : Query) :
  (Spec.refused req →
     ∃ message,
       respond (suggestions h db req)
       = {| status := 400; body := ErrorBody "VALIDATION_ERROR" message |})
  ∧ (¬ Spec.refused req →
     ∃ query n,
       q req = Some query ∧ Spec.effectiveLimit req = Some n
       ∧ respond (suggestions h db req)
         = {| status := 200;
              body := SearchResponse query
                        (SearchRepository.getSuggestions h db query (entity req) n) |}).
Proof.
  unfold suggestions. rewrite effectiveLimit_route. unfold Spec.refused.
  destruct (truthy (q req)) eqn:Hq; simpl.
  2:{ split; [by eauto|]. intros Hno. exfalso. apply Hno.
      apply truthy_false in Hq as [->| ->]; [by left|].
      right; left. exists "". split; [done|simpl; lia]. }
  apply truthy_true in Hq as (query & -> & Hquery). simpl.
  destruct (Nat.ltb_spec (String.length query) 3) as [Hshort|Hlong].
  { split; [by eauto|]. intros Hno. exfalso. apply Hno. right; left. eauto. }
  destruct (truthy (entity req) && _) eqn:He.
  { split; [by eauto|]. intros Hno. exfalso. apply Hno.
    apply andb_prop in He as [(e & He & Hne)%truthy_true Hin].
    rewrite He in Hin. simpl in Hin.
    apply negb_true_iff, bool_decide_eq_false in Hin.
    right; right; left. eauto. }
  assert (¬ ∃ e, entity req = Some e ∧ e ≠ "" ∧ e ∉ validEntities) as Hentity.
  { intros (e & Hsome & Hne & Hin).
    apply andb_false_iff in He as [He|He].
    - apply truthy_false in He as [He|He]; congruence.
    - rewrite Hsome in He. simpl in He.
      by apply negb_false_iff, bool_decide_eq_true in He. }
  destruct (Spec.effectiveLimit req) as [n|] eqn:Hlimit.
  2:{ split; [by eauto|]. intros Hno. exfalso. apply Hno. by do 3 right; left. }
  destruct (Z.ltb_spec n 1) as [Hlow|Hlow].
  { split; [by eauto|]. intros Hno. exfalso. apply Hno. do 4 right. eauto. }
  destruct (Z.gtb_spec n 20) as [Hhigh|Hhigh].
  { split; [by eauto|]. intros Hno. exfalso. apply Hno. do 4 right.
    exists n. split; [done|lia]. }
  split; [|by eauto].
  intros [?|[(? & [= <-] & ?)|[?|[?|(? & [= <-] & ?)]]]]; (done || lia).
Qed.

(** C9 (the code departs from the claim): the route reads [limit] with
    [parseInt], which takes the digits at the start of the text and ignores
    what follows, so the check for a number lets [5abc] pass.  The request
    [q=widget&limit=5abc], whose limit is no number, is answered 200 with
    the suggestions under the limit 5, whatever the tables hold. *)
Theorem non_numeric_limit_is_accepted h db :
  Spec.isNumeral "5abc" = false
  ∧ Spec.rejectedAsDescribed Cases.trailingTextQuery = true
  ∧ JS.parseInt "5abc" = Some 5
  ∧ respond (suggestions h db Cases.trailingTextQuery)
    = {| status := 200;
         body := SearchResponse "widget"
                   (SearchRepository.getSuggestions h db "widget" None 5) |}.
Proof.
  split_and!; [by vm_compute..|].
  unfold suggestions, Cases.trailingTextQuery. cbn [q entity limit truthy default].
  reflexivity.
Qed.

End search_route.

(** ** POST / : the two loops *)

Section order_loops.
Import OrderRoute OrderSpec.

Lemma bind_ok {A B} (m : M A) (k : A → M B) c a c' :
  m c = (Ok a, c') → bind m k c = k a c'.
Proof. intros H. unfold bind. by rewrite H. Qed.

Lemma findById_lookup id c :
  productsRepo_findById id c = (Ok (lookupProduct (store c) id), c).
Proof. done. Qed.

(** The validation loop leaves the connection alone and, when every item
    resolves, ends with a map that holds for each item the row its id
    resolves to. *)
Lemma resolveProducts_all (cartItems : list Item) : ∀ (m : gmap Z Product.t) c,
  Forall (resolves (store c)) cartItems →
  ∃ m' : gmap Z Product.t,
    resolveProducts cartItems m c = (Ok (inr m'), c)
    ∧ ∀ id, m' !! id
            = if decide (id ∈ productId <$> cartItems)
              then lookupProduct (store c) id else m !! id.
Proof.
  induction cartItems as [|item rest IH]; intros m c Hall.
  - exists m. split; [done|]. intros id. by rewrite decide_False by set_solver.
  - apply Forall_cons in Hall as [[p Hp] Hrest].
    destruct (IH (<[productId item := p]> m) c Hrest) as (m' & Hrun & Hm').
    exists m'. split.
    + simpl. erewrite bind_ok by apply findById_lookup. by rewrite Hp.
    + intros id. rewrite Hm'. rewrite fmap_cons.
      destruct (decide (id ∈ productId <$> rest)) as [Hin|Hnotin].
      * by rewrite decide_True by set_solver.
      * destruct (decide (id = productId item)) as [->|Hne].
        -- rewrite decide_True by set_solver. by rewrite lookup_insert_eq.
        -- rewrite decide_False by set_solver. by rewrite lookup_insert_ne.
Qed.

(** The validation loop stops at the first item that resolves to nothing,
    whatever follows it. *)
Lemma resolveProducts_missing (before : list Item) item (after : list Item) :
  ∀ (m : gmap Z Product.t) c,
  Forall (resolves (store c)) before →
  lookupProduct (store c) (productId item) = None →
  resolveProducts (before ++ item :: after) m c = (Ok (inl (productId item)), c).
Proof.
  induction before as [|x before IH]; intros m c Hall Hnone; simpl.
  - erewrite bind_ok by apply findById_lookup. by rewrite Hnone.
  - apply Forall_cons in Hall as [[p Hp] Hrest].
    erewrite bind_ok by apply findById_lookup. rewrite Hp. by apply IH.
Qed.

Lemma withDetails_nil c : withDetails c [] = c.
Proof. destruct c as [[] ?]. unfold withDetails. simpl. by rewrite app_nil_r. Qed.

(** With every product in the map and no failing insert, the second loop
    appends one row per item. *)
Lemma createDetails_ok fails (m : gmap Z Product.t) orderId (cartItems : list Item) :
  ∀ i acc c,
  (∀ item, item ∈ cartItems → is_Some (m !! productId item)) →
  (∀ j, (i ≤ j < i + length cartItems)%nat → fails (CreateDetail j) = false) →
  let rows := newDetails (λ id, m !! id) orderId cartItems (order_details (store c)) in
  createDetails fails m orderId cartItems i acc c
  = (Ok (acc ++ rows), withDetails c rows.*1).
Proof.
  induction cartItems as [|item rest IH]; intros i acc c Hmap Hfails; simpl.
  - by rewrite app_nil_r, withDetails_nil.
  - destruct (Hmap item) as [p Hp]; [set_solver|]. rewrite Hp.
    unfold bind at 1. unfold orderDetailsRepo_create at 1.
    rewrite Hfails by (simpl; lia).
    set (row := {| OrderDetail.orderDetailId := _ |}).
    rewrite IH; [|set_solver|intros j Hj; apply Hfails; simpl; lia].
    simpl. f_equal.
    + by rewrite <- app_assoc.
    + unfold withDetails. simpl. by rewrite <- app_assoc.
Qed.

(** The second loop never touches the transaction state. *)
Lemma createDetails_txn fails (m : gmap Z Product.t) orderId (cartItems : list Item) :
  ∀ i acc c, txn (createDetails fails m orderId cartItems i acc c).2 = txn c.
Proof.
  induction cartItems as [|item rest IH]; intros i acc c; simpl; [done|].
  destruct (m !! productId item) as [p|]; [|done].
  unfold bind at 1. unfold orderDetailsRepo_create at 1.
  destruct (fails (CreateDetail i)); [done|]. by rewrite IH.
Qed.

(** A failing insert makes the second loop throw. *)
Lemma createDetails_throws fails (m : gmap Z Product.t) orderId (cartItems : list Item) :
  ∀ i acc c,
  (∃ j, (i ≤ j < i + length cartItems)%nat ∧ fails (CreateDetail j) = true) →
  ∃ e c', createDetails fails m orderId cartItems i acc c = (Throw (Error e), c').
Proof.
  induction cartItems as [|item rest IH]; intros i acc c (j & Hj & Hfail); simpl in *.
  - lia.
  - destruct (m !! productId item) as [p|]; [|by eauto].
    unfold bind at 1. unfold orderDetailsRepo_create at 1.
    destruct (fails (CreateDetail i)) eqn:Hi; [by eauto|].
    apply IH. exists j. split; [|done].
    destruct (decide (j = i)) as [->|]; [congruence|lia].
Qed.

End order_loops.

(** ** POST / : the handler *)

Section order_handler.
Import OrderRoute OrderSpec.

Lemma nextId_fresh (ids : list Z) (x : Z) : x ∈ ids → x < nextId ids.
Proof.
  unfold nextId. induction ids as [|y ids IH]; [set_solver|].
  intros [->|Hin]%elem_of_cons; simpl; [lia|]. specialize (IH Hin). lia.
Qed.

Lemma find_last {A} (f : A → bool) (l : list A) (x : A) :
  (∀ y, y ∈ l → f y = false) → f x = true → List.find f (l ++ [x]) = Some x.
Proof.
  intros Hl Hx. induction l as [|y l IH]; simpl.
  - by rewrite Hx.
  - rewrite (Hl y) by set_solver. apply IH. intros z Hz. apply Hl. set_solver.
Qed.

Lemma find_new_order (s : Store) branch now :
  List.find (λ o, Order.orderId o =? Order.orderId (newOrder s branch now))
    (orders s ++ [newOrder s branch now])
  = Some (newOrder s branch now).
Proof.
  apply find_last; [|apply Z.eqb_refl].
  intros o Ho. apply Z.eqb_neq.
  assert (Order.orderId o < nextId (Order.orderId <$> orders s)); [|simpl; lia].
  apply nextId_fresh. by apply list_elem_of_fmap_2.
Qed.

Lemma newDetails_ext (f g : Z → option Product.t) orderId (cartItems : list Item) :
  ∀ table,
  (∀ item, item ∈ cartItems → f (productId item) = g (productId item)) →
  newDetails f orderId cartItems table = newDetails g orderId cartItems table.
Proof.
  induction cartItems as [|item rest IH]; intros table Hfg; simpl; [done|].
  rewrite <- Hfg by set_solver. destruct (f (productId item)); [|done].
  f_equal. apply IH. intros ? ?. apply Hfg. set_solver.
Qed.

Lemma inserts_fail_or_not (fails : Write → bool) (n : nat) :
  (∀ i, (i < n)%nat → fails (CreateDetail i) = false)
  ∨ (∃ i, (i < n)%nat ∧ fails (CreateDetail i) = true).
Proof.
  induction n as [|n [IH|(i & Hi & Hfail)]].
  - left. intros i Hi. lia.
  - destruct (fails (CreateDetail n)) eqn:Hn.
    + right. exists n. split; [lia|done].
    + left. intros i Hi. destruct (decide (i = n)) as [->|]; [done|]. apply IH. lia.
  - right. exists i. split; [lia|done].
Qed.

Lemma nothingFails_dec fails (cartItems : list Item) :
  nothingFails fails cartItems
  ∨ insertFails fails cartItems
  ∨ (fails CreateOrder = false
     ∧ (∀ i, (i < length cartItems)%nat → fails (CreateDetail i) = false)
     ∧ fails Commit = true).
Proof.
  unfold nothingFails, insertFails.
  destruct (fails CreateOrder); [by right; left; left|].
  destruct (inserts_fail_or_not fails (length cartItems)) as [Hok|Hbad];
    [|by right; left; right].
  destruct (fails Commit); [by right; right|by left].
Qed.

Lemma idle_conn (c : Conn) : txn c = None → {| store := store c; txn := None |} = c.
Proof. destruct c. simpl. by intros ->. Qed.

(** The transaction from a connection with none open, every product in
    the map: with no failing statement the order and its details are there
    afterwards. *)
Lemma writeOrder_ok now fails branch (m : gmap Z Product.t) (cartItems : list Item) c :
  txn c = None →
  (∀ item, item ∈ cartItems → is_Some (m !! productId item)) →
  nothingFails fails cartItems →
  let s := store c in
  let o := newOrder s branch now in
  let rows := newDetails (λ id, m !! id) (Order.orderId o) cartItems (order_details s) in
  writeOrder now fails branch m cartItems c
  = (Ok (Order.orderId o, rows), {| store := withOrder s o rows.*1; txn := None |}).
Proof.
  intros Hidle Hmap (HfO & HfD & HfC) s o rows.
  unfold writeOrder, tryCatch, bind at 1, beginTransaction. rewrite Hidle.
  unfold bind at 1, ordersRepo_create. rewrite HfO.
  cbv beta iota zeta. simpl store. simpl txn. unfold bind at 1.
  rewrite createDetails_ok; [|done|intros j Hj; apply HfD; lia].
  unfold bind, commit, ret. simpl txn. by rewrite HfC.
Qed.

(** With a failing statement the transaction throws and the connection is
    as it was before. *)
Lemma writeOrder_fails now fails branch (m : gmap Z Product.t) (cartItems : list Item) c :
  txn c = None →
  (∀ item, item ∈ cartItems → is_Some (m !! productId item)) →
  ¬ nothingFails fails cartItems →
  ∃ e, writeOrder now fails branch m cartItems c = (Throw (Error e), c).
Proof.
  intros Hidle Hmap Hno.
  unfold writeOrder, tryCatch, bind at 1, beginTransaction. rewrite Hidle.
  unfold bind at 1, ordersRepo_create.
  destruct (fails CreateOrder) eqn:HfO.
  { unfold bind, rollback, throw. simpl. rewrite idle_conn by done. eauto. }
  cbv beta iota zeta. simpl store. simpl txn. unfold bind at 1.
  destruct (inserts_fail_or_not fails (length cartItems)) as [HfD|HfD].
  - rewrite createDetails_ok; [|done|intros j Hj; apply HfD; lia].
    unfold bind at 1, commit. simpl txn.
    destruct (fails Commit) eqn:HfC; [|exfalso; by apply Hno].
    unfold bind, rollback, throw. simpl. rewrite idle_conn by done. eauto.
  - match goal with
    | |- context [createDetails fails m ?oid cartItems 0 [] ?c2] =>
        destruct (createDetails_throws fails m oid cartItems 0 [] c2)
          as (e & c3 & Hthrow);
        [ destruct HfD as (i & Hi & Hfail); exists i; split; [lia|done] |];
        pose proof (createDetails_txn fails m oid cartItems 0 [] c2) as Htxn;
        rewrite Hthrow in *
    end.
    simpl in Htxn. unfold bind, rollback, throw. rewrite Htxn.
    rewrite idle_conn by done. eauto.
Qed.

(** The handler on a request that passes the checks and whose products all
    resolve, from a connection with no transaction open: with no failing
    statement the order and its details are written and sent back; with a
    failing one the error is passed on and the connection is as before. *)
Lemma createCartOrder_resolved now fails req branch (cartItems : list Item) c :
  wellFormed req branch cartItems →
  Forall (resolves (store c)) cartItems →
  txn c = None →
  let s := store c in
  let o := newOrder s branch now in
  let rows := newDetails (lookupProduct s) (Order.orderId o) cartItems (order_details s) in
  (nothingFails fails cartItems →
     createCartOrder now fails req c
     = (Sent {| status := 201; body := OrderWithDetails o rows |},
        {| store := withOrder s o rows.*1; txn := None |}))
  ∧ (¬ nothingFails fails cartItems →
     ∃ e, createCartOrder now fails req c = (Next (Error e), c)).
Proof.
  intros (Hbranch & Hnz & Hitems & Hne) Hall Hidle s o rows.
  destruct (resolveProducts_all cartItems ∅ c Hall) as (m & Hresolve & Hm).
  assert (newDetails (λ id, m !! id) (Order.orderId o) cartItems (order_details s) = rows)
    as Hrows.
  { apply newDetails_ext. intros item Hitem. rewrite Hm.
    rewrite decide_True; [done|]. by apply list_elem_of_fmap_2. }
  assert (∀ item, item ∈ cartItems → is_Some (m !! productId item)) as Hmap.
  { intros item Hitem. rewrite Hm. rewrite decide_True by (by apply list_elem_of_fmap_2).
    by eapply Forall_forall in Hall. }
  assert (createCartOrder now fails req c
          = match writeOrder now fails branch m cartItems c with
            | (Ok (orderId, orderDetails), c') =>
                match List.find (λ o, Order.orderId o =? orderId) (orders (store c')) with
                | Some order =>
                    (Sent {| status := 201; body := OrderWithDetails order orderDetails |}, c')
                | None => (Next (Error "Failed to retrieve created order"), c')
                end
            | (Throw e, c') => (Next e, c')
            end) as ->.
  { unfold createCartOrder. rewrite Hbranch, Hitems.
    assert (falsy (Some branch) = false) as -> by (by destruct branch).
    destruct cartItems as [|item0 rest0] eqn:Hcart; [done|]. rewrite <- Hcart in *.
    unfold tryCatch. erewrite bind_ok by exact Hresolve. cbv beta iota.
    unfold bind at 1. simpl default.
    destruct (writeOrder now fails branch m cartItems c) as [[[oid ds]|e] c']; [|done].
    unfold bind, ordersRepo_findById, ret, throw.
    by destruct (List.find _ _). }
  split.
  - intros Hok. rewrite (writeOrder_ok now fails branch m cartItems c) by done.
    fold s. fold o. rewrite Hrows. simpl store. simpl orders.
    pose proof (find_new_order s branch now) as Hfind. fold o in Hfind.
    by rewrite Hfind.
  - intros Hno.
    destruct (writeOrder_fails now fails branch m cartItems c) as [e ->]; by eauto.
Qed.

(** The handler on a request that fails a check on its shape. *)
Lemma createCartOrder_malformed now fails req c :
  (¬ ∃ branch cartItems, wellFormed req branch cartItems) →
  ∃ message, createCartOrder now fails req c = (Next (ValidationError message), c).
Proof.
  intros Hbad. unfold createCartOrder, tryCatch.
  destruct (falsy (branchId req)) eqn:Hfalsy; [by eauto|].
  destruct (items req) as [[|item rest]|] eqn:Hitems; [by eauto| |by eauto].
  exfalso. apply Hbad.
  destruct (branchId req) as [branch|] eqn:Hbranch; [|done].
  exists branch, (item :: rest). split_and!; [done| |done..].
  by intros ->.
Qed.

Lemma wellFormed_or_not (req : CartOrderRequest) :
  (∃ branch cartItems, wellFormed req branch cartItems)
  ∨ ¬ (∃ branch cartItems, wellFormed req branch cartItems).
Proof.
  unfold wellFormed.
  destruct (branchId req) as [branch|]; [|right; naive_solver].
  destruct (decide (branch = 0)) as [->|Hnz]; [right; naive_solver|].
  destruct (items req) as [[|item rest]|]; [right; naive_solver| |right; naive_solver].
  left. by exists branch, (item :: rest).
Qed.

(** The handler when some product does not resolve. *)
Lemma createCartOrder_missing now fails req branch
    (before : list Item) item (after : list Item) c :
  wellFormed req branch (before ++ item :: after) →
  Forall (resolves (store c)) before →
  lookupProduct (store c) (productId item) = None →
  createCartOrder now fails req c
  = (Sent {| status := 400;
             body := OrderValidationError "Product not found" (productId item) |}, c).
Proof.
  intros (Hbranch & Hnz & Hitems & Hne) Hall Hnone.
  unfold createCartOrder. rewrite Hbranch, Hitems.
  assert (falsy (Some branch) = false) as -> by (by destruct branch).
  destruct (before ++ item :: after) as [|item0 rest0] eqn:Hcart; [done|].
  rewrite <- Hcart. unfold tryCatch.
  by erewrite bind_ok by (by apply resolveProducts_missing).
Qed.

(** Either every item resolves, or there is a first one that does not. *)
Lemma first_unresolved (s : Store) (cartItems : list Item) :
  Forall (resolves s) cartItems
  ∨ ∃ before item after,
      cartItems = before ++ item :: after
      ∧ Forall (resolves s) before
      ∧ lookupProduct s (productId item) = None.
Proof.
  induction cartItems as [|item rest [IH|(before & x & after & -> & Hb & Hx)]].
  - by left.
  - destruct (lookupProduct s (productId item)) as [p|] eqn:Hp.
    + left. constructor; [by exists p|done].
    + right. exists [], item, rest. by split_and!.
  - destruct (lookupProduct s (productId item)) as [p|] eqn:Hp.
    + right. exists (item :: before), x, after. split_and!; [done| |done].
      constructor; [by exists p|done].
    + right. exists [], item, (before ++ x :: after). by split_and!.
Qed.

(** The rows written for items that all resolve: one per item, in order. *)
Lemma newDetails_detailFor (s : Store) orderId (cartItems : list Item) : ∀ table,
  Forall (resolves s) cartItems →
  Forall2 (detailFor s orderId) cartItems
    (newDetails (lookupProduct s) orderId cartItems table).
Proof.
  induction cartItems as [|item rest IH]; intros table Hall; simpl; [constructor|].
  apply Forall_cons in Hall as [[p Hp] Hrest]. rewrite Hp.
  constructor; [by repeat split|by apply IH].
Qed.

(** The ids of new rows lie above every id of the table. *)
Lemma newDetails_ids_above lookup orderId (cartItems : list Item) : ∀ table row x,
  row ∈ newDetails lookup orderId cartItems table →
  x ∈ OrderDetail.orderDetailId <$> table →
  x < OrderDetail.orderDetailId row.1.
Proof.
  induction cartItems as [|item rest IH]; intros table row x; simpl; [set_solver|].
  destruct (lookup (productId item)) as [p|]; [|set_solver].
  intros [->|Hin]%elem_of_cons Hx.
  - simpl. by apply nextId_fresh.
  - eapply IH; [done|]. rewrite fmap_app. set_solver.
Qed.

Lemma newDetails_ids_NoDup lookup orderId (cartItems : list Item) : ∀ table,
  NoDup (OrderDetail.orderDetailId <$> (newDetails lookup orderId cartItems table).*1).
Proof.
  induction cartItems as [|item rest IH]; intros table; simpl; [constructor|].
  destruct (lookup (productId item)) as [p|]; [|constructor].
  rewrite !fmap_cons. constructor; [|apply IH].
  simpl. intros (d & Hid & (row & -> & Hrow)%list_elem_of_fmap)%list_elem_of_fmap.
  pose proof (newDetails_ids_above _ _ _ _ row
                (nextId (OrderDetail.orderDetailId <$> table)) Hrow) as Hlt.
  rewrite <- Hid in Hlt. enough (nextId (OrderDetail.orderDetailId <$> table)
    < nextId (OrderDetail.orderDetailId <$> table)) by lia.
  apply Hlt. rewrite fmap_app. set_solver.
Qed.

End order_handler.

(** ** POST / : atomicity, the missing product, prices, repeated products *)

Section cart_order.
Import OrderRoute OrderSpec.

(** C2: from a connection with no transaction open, a failing insert of the
    order row or of any order detail row ends with the error passed on and
    the connection exactly as before the request: the tables are restored
    and no transaction stays open.  And whatever happens to a request,
    either the connection is as before or the order is stored together with
    one detail row for every item. *)
Theorem cart_order_all_or_nothing now fails req c :
  txn c = None →
  (∀ branch cartItems,
      wellFormed req branch cartItems →
      Forall (resolves (store c)) cartItems →
      insertFails fails cartItems →
      ∃ e, createCartOrder now fails req c = (Next (Error e), c))
  ∧ ((createCartOrder now fails req c).2 = c
     ∨ ∃ branch cartItems o rows,
         wellFormed req branch cartItems
         ∧ createCartOrder now fails req c
           = (Sent {| status := 201; body := OrderWithDetails o rows |},
              {| store := withOrder (store c) o rows.*1; txn := None |})
         ∧ Forall2 (detailFor (store c) (Order.orderId o)) cartItems rows).
Proof.
  intros Hidle. split.
  - intros branch cartItems Hreq Hall Hfail.
    apply (createCartOrder_resolved now fails req branch cartItems c); [done..|].
    intros (HfO & HfD & _). destruct Hfail as [Hfail|(i & Hi & Hfail)].
    + congruence.
    + rewrite HfD in Hfail; done.
  - destruct (wellFormed_or_not req) as [(branch & cartItems & Hreq)|Hbad].
    2:{ left. by destruct (createCartOrder_malformed now fails req c Hbad) as [? ->]. }
    destruct (first_unresolved (store c) cartItems)
      as [Hall|(before & item & after & -> & Hall & Hnone)].
    2:{ left. by erewrite createCartOrder_missing. }
    destruct (createCartOrder_resolved now fails req branch cartItems c)
      as [Hok Hno]; [done..|].
    destruct (nothingFails_dec fails cartItems) as [Hnothing|Hsome].
    + right. eexists branch, cartItems, _, _. split_and!; [done|by apply Hok|].
      by apply newDetails_detailFor.
    + left. destruct Hno as [e ->]; [|done].
      intros (HfO & HfD & HfC).
      destruct Hsome as [[?|(i & Hi & Hfail)]|(_ & _ & ?)]; [congruence| |congruence].
      rewrite HfD in Hfail; done.
Qed.

(** C4, amended: when [branchId] is present and not zero and some product
    id of the cart resolves to no row, the answer is 400 with the body
    [{error: "Product not found", productId}] for the first such id in the
    order of the cart, whatever follows it in the cart, and the connection
    is exactly as before: nothing is written. *)
Theorem first_missing_product_is_reported now fails req branch
    (before : list Item) item (after : list Item) c :
  wellFormed req branch (before ++ item :: after) →
  Forall (resolves (store c)) before →
  lookupProduct (store c) (productId item) = None →
  createCartOrder now fails req c
  = (Sent {| status := 400;
             body := OrderValidationError "Product not found" (productId item) |}, c).
Proof. apply createCartOrder_missing. Qed.

(** *** Prices *)

Lemma find_fmap_same_id (f : Product.t → Product.t) (id : Z) (l : list Product.t) :
  (∀ p, Product.productId (f p) = Product.productId p) →
  List.find (λ p, Product.productId p =? id) (f <$> l)
  = f <$> List.find (λ p, Product.productId p =? id) l.
Proof.
  intros Hid. induction l as [|p l IH]; [done|].
  rewrite fmap_cons. simpl. rewrite Hid. by destruct (Product.productId p =? id).
Qed.

(** What an id resolves to after the price of product [pid] was updated. *)
Lemma lookupProduct_update price pid c id :
  lookupProduct (store (updateProductPrice price pid c)) id
  = (λ p, if id =? pid then withPrice price p else p) <$> lookupProduct (store c) id.
Proof.
  unfold lookupProduct, updateProductPrice. simpl products.
  rewrite find_fmap_same_id by (intros p; by destruct (Product.productId p =? pid)).
  destruct (List.find _ _) as [p|] eqn:Hfind; [|done].
  apply find_some in Hfind as [_ Hid%Z.eqb_eq]. simpl. by rewrite Hid.
Qed.

Lemma resolves_update price pid c item :
  resolves (store c) item → resolves (store (updateProductPrice price pid c)) item.
Proof.
  unfold resolves. rewrite lookupProduct_update. intros [p ->]. by eexists.
Qed.

(** C5: the unit price of an order detail is the price of the product row
    its id resolved to when the request was validated; the statement that
    updates a product's price leaves order_details as it is; and of two
    orders for a product placed before and after such an update, the rows of
    the first keep the old price and the rows of the second carry the new
    one. *)
Theorem unit_price_is_a_snapshot now1 now2 fails1 fails2 req1 req2 branch1 branch2
    (cart1 cart2 : list Item) c pid p newPrice :
  txn c = None →
  wellFormed req1 branch1 cart1 → wellFormed req2 branch2 cart2 →
  Forall (resolves (store c)) cart1 → Forall (resolves (store c)) cart2 →
  nothingFails fails1 cart1 → nothingFails fails2 cart2 →
  lookupProduct (store c) pid = Some p →
  let first := createCartOrder now1 fails1 req1 c in
  let updated := updateProductPrice newPrice pid first.2 in
  let second := createCartOrder now2 fails2 req2 updated in
  ∃ o1 rows1 o2 rows2,
    first.1 = Sent {| status := 201; body := OrderWithDetails o1 rows1 |}
    ∧ second.1 = Sent {| status := 201; body := OrderWithDetails o2 rows2 |}
    ∧ Forall2 (detailFor (store c) (Order.orderId o1)) cart1 rows1
    ∧ Forall2 (detailFor (store updated) (Order.orderId o2)) cart2 rows2
    ∧ order_details (store first.2) = order_details (store c) ++ rows1.*1
    ∧ order_details (store updated) = order_details (store first.2)
    ∧ order_details (store second.2) = order_details (store c) ++ rows1.*1 ++ rows2.*1
    ∧ Forall (λ row, OrderDetail.productId row.1 = pid
                     → OrderDetail.unitPrice row.1 = Product.price p) rows1
    ∧ Forall (λ row, OrderDetail.productId row.1 = pid
                     → OrderDetail.unitPrice row.1 = newPrice) rows2.
Proof.
  intros Hidle Hreq1 Hreq2 Hall1 Hall2 Hok1 Hok2 Hp first updated second.
  destruct (createCartOrder_resolved now1 fails1 req1 branch1 cart1 c)
    as [Hfirst _]; [done..|].
  specialize (Hfirst Hok1). fold first in Hfirst.
  set (o1 := newOrder (store c) branch1 now1) in *.
  set (rows1 := newDetails (lookupProduct (store c)) (Order.orderId o1) cart1
                  (order_details (store c))) in *.
  assert (txn updated = None) as Hidle' by (unfold updated; by rewrite Hfirst).
  assert (Forall (resolves (store updated)) cart2) as Hall2'.
  { eapply Forall_impl; [exact Hall2|]. intros item Hitem.
    apply resolves_update. unfold first in *. by rewrite Hfirst. }
  destruct (createCartOrder_resolved now2 fails2 req2 branch2 cart2 updated)
    as [Hsecond _]; [done..|].
  specialize (Hsecond Hok2). fold second in Hsecond.
  set (o2 := newOrder (store updated) branch2 now2) in *.
  set (rows2 := newDetails (lookupProduct (store updated)) (Order.orderId o2) cart2
                  (order_details (store updated))) in *.
  assert (Forall2 (detailFor (store c) (Order.orderId o1)) cart1 rows1) as Hrows1
    by (by apply newDetails_detailFor).
  assert (Forall2 (detailFor (store updated) (Order.orderId o2)) cart2 rows2) as Hrows2
    by (by apply newDetails_detailFor).
  exists o1, rows1, o2, rows2.
  split_and!; [by rewrite Hfirst|by rewrite Hsecond|done|done|by rewrite Hfirst|done| | |].
  - rewrite Hsecond. simpl. unfold updated. rewrite Hfirst. simpl.
    by rewrite <- app_assoc.
  - apply Forall_forall. intros row Hrow Hpid.
    apply list_elem_of_lookup in Hrow as [i Hrow].
    destruct (Forall2_lookup_r _ _ _ _ _ Hrows1 Hrow)
      as (item & _ & Hlook & _ & Hid & _ & Hprice & _).
    rewrite Hid in Hpid. rewrite Hpid, Hp in Hlook. by rewrite Hprice; injection Hlook as <-.
  - apply Forall_forall. intros row Hrow Hpid.
    apply list_elem_of_lookup in Hrow as [i Hrow].
    destruct (Forall2_lookup_r _ _ _ _ _ Hrows2 Hrow)
      as (item & _ & Hlook & _ & Hid & _ & Hprice & _).
    rewrite Hid in Hpid. rewrite Hpid in Hlook.
    unfold updated in Hlook. rewrite lookupProduct_update, Hfirst in Hlook.
    simpl store in Hlook.
    change (lookupProduct (withOrder (store c) o1 rows1.*1) pid)
      with (lookupProduct (store c) pid) in Hlook.
    rewrite Hp, Z.eqb_refl in Hlook. simpl in Hlook.
    rewrite Hprice. by injection Hlook as <-.
Qed.

(** *** Repeated products *)

(** C10: a request that passes the checks, whose products all resolve and
    whose statements all succeed, is answered 201 and adds to order_details
    exactly one row per item, in the order of the cart, each with the
    quantity of its own item and an id of its own; two items with the same
    product id get rows that carry the same product record and the same unit
    price. *)
Theorem one_detail_row_per_item now fails req branch (cartItems : list Item) c :
  txn c = None →
  wellFormed req branch cartItems →
  Forall (resolves (store c)) cartItems →
  nothingFails fails cartItems →
  ∃ o rows,
    createCartOrder now fails req c
    = (Sent {| status := 201; body := OrderWithDetails o rows |},
       {| store := withOrder (store c) o rows.*1; txn := None |})
    ∧ Forall2 (detailFor (store c) (Order.orderId o)) cartItems rows
    ∧ NoDup (OrderDetail.orderDetailId <$> rows.*1)
    ∧ ∀ i j item1 item2 row1 row2,
        cartItems !! i = Some item1 → cartItems !! j = Some item2 →
        rows !! i = Some row1 → rows !! j = Some row2 →
        productId item1 = productId item2 →
        OrderDetail.quantity row1.1 = quantity item1
        ∧ OrderDetail.quantity row2.1 = quantity item2
        ∧ row1.2 = row2.2
        ∧ OrderDetail.unitPrice row1.1 = OrderDetail.unitPrice row2.1.
Proof.
  intros Hidle Hreq Hall Hok.
  destruct (createCartOrder_resolved now fails req branch cartItems c)
    as [Hrun _]; [done..|].
  specialize (Hrun Hok).
  pose proof (newDetails_detailFor (store c)
                (Order.orderId (newOrder (store c) branch now)) cartItems
                (order_details (store c)) Hall) as Hrows.
  eexists _, _. split_and!; [exact Hrun|exact Hrows|apply newDetails_ids_NoDup|].
  intros i j item1 item2 row1 row2 Hi Hj Hr1 Hr2 Hsame.
  destruct (Forall2_lookup_lr _ _ _ _ _ _ Hrows Hi Hr1)
    as (Hlook1 & _ & _ & Hq1 & Hprice1 & _).
  destruct (Forall2_lookup_lr _ _ _ _ _ _ Hrows Hj Hr2)
    as (Hlook2 & _ & _ & Hq2 & Hprice2 & _).
  rewrite Hsame, Hlook2 in Hlook1. injection Hlook1 as Heq.
  split_and!; [done..|]. by rewrite Hprice1, Hprice2, Heq.
Qed.

(** *** Quantities *)

(** C8 (the code departs from the claim): the handler never looks at
    [quantity].  On the seeded database the request for zero units of
    product 5 is answered 201, and an order row and an order detail row with
    quantity 0 are written. *)
Theorem zero_quantity_is_written :
  status (respond (createCartOrder Cases.now Seed.noFailure
                     Cases.zeroQuantityRequest Cases.conn0).1) = 201
  ∧ Order.orderId
      <$> orders (store (createCartOrder Cases.now Seed.noFailure
                           Cases.zeroQuantityRequest Cases.conn0).2) = [1]
  ∧ order_details (store (createCartOrder Cases.now Seed.noFailure
                            Cases.zeroQuantityRequest Cases.conn0).2)
    = [ {| OrderDetail.orderDetailId := 1; OrderDetail.orderId := 1;
           OrderDetail.productId := 5; OrderDetail.quantity := 0;
           OrderDetail.unitPrice := 29.99; OrderDetail.notes := "" |} ].
Proof. by vm_compute. Qed.

End cart_order.

(** ** The properties on the seeded databases *)

Section on_seed.
Import SearchRepository OrderRoute OrderSpec.

Lemma getSuggestions_round_robin_witness :
  getSuggestions Seed.host Seed.searchDb "widget" None 10
  = take 10
      (Spec.roundRobin
         (searchProducts Seed.host Seed.searchDb "widget" (JS.ceilDiv3 10))
         (searchSuppliers Seed.searchDb "widget" (JS.ceilDiv3 10))
         (searchOrders Seed.host Seed.searchDb "widget" (JS.ceilDiv3 10)))
  ∧ Z.of_nat (length (getSuggestions Seed.host Seed.searchDb "widget" None 10)) ≤ 10.
Proof.
  destruct (getSuggestions_round_robin Seed.host Seed.searchDb "widget" 10)
    as (_ & _ & _ & _ & Heq & Hlen).
  - vm_compute. lia.
  - lia.
  - split; [exact Heq | exact Hlen].
Defined.

(** The claim C7 fails for the limit 1: products and suppliers both match
    "widget", and the one suggestion returned is a product. *)
Lemma limit_one_shows_one_type :
  length (Spec.matchingProducts Seed.searchDb "widget") = 2%nat
  ∧ length (Spec.matchingSuppliers Seed.searchDb "widget") = 2%nat
  ∧ type <$> getSuggestions Seed.host Seed.searchDb "widget" None 1
    = [SuggestionType.product].
Proof. by vm_compute. Qed.

Lemma suggestions_mix_types_witness :
  ∃ s1 s2,
    s1 ∈ getSuggestions Seed.host Seed.searchDb "widget" None 2
    ∧ s2 ∈ getSuggestions Seed.host Seed.searchDb "widget" None 2
    ∧ type s1 ≠ type s2.
Proof.
  apply (suggestions_mix_types Seed.host Seed.searchDb "widget" 2).
  - vm_compute. lia.
  - lia.
  - left. split; vm_compute; discriminate.
Defined.

(** The claim C3 fails for a query with a wildcard: [g_d] returns the two
    gadgets, whose names and SKUs do not contain it. *)
Lemma wildcard_query_returns_rows_without_it :
  (3 ≤ String.length "g_d")%nat
  ∧ text <$> searchProducts Seed.host Seed.searchDb "g_d" 10
    = ["Gadget B"; "Mini Gadget"]
  ∧ Spec.productMatches (SQLite.lower "g_d") Seed.gadgetB = false
  ∧ Spec.productMatches (SQLite.lower "g_d") Seed.miniGadget = false.
Proof. vm_compute. split_and!; (lia || reflexivity). Qed.

Lemma per_entity_search_ranked_witness :
  ∃ ranked,
    ranked ≡ₚ List.filter
                (λ row, Spec.contains (SQLite.lower "Widget")
                          (Spec.searched (Supplier.name row)))
                (suppliers Seed.searchDb)
    ∧ StronglySorted
        (Spec.byTierThenName
           (λ row, Spec.tier (SQLite.lower "Widget") (SQLite.lower (Supplier.name row)))
           Supplier.name) ranked
    ∧ searchSuppliers Seed.searchDb "Widget" 10
      = map supplierSuggestion (take (Z.to_nat 10) ranked).
Proof.
  destruct (per_entity_search_ranked Seed.host Seed.searchDb "Widget" 10)
    as (_ & Hsuppliers & _).
  - reflexivity.
  - lia.
  - exact Hsuppliers.
Defined.

Lemma cart_well_formed : wellFormed Cases.cartRequest 1 Cases.cart.
Proof. repeat split; discriminate. Defined.

Lemma cart_resolves : Forall (resolves (store Cases.conn0)) Cases.cart.
Proof. repeat constructor; eexists; reflexivity. Defined.

Lemma cart_order_all_or_nothing_witness :
  ∃ e, createCartOrder Cases.now Cases.secondDetailFails Cases.cartRequest Cases.conn0
       = (Next (Error e), Cases.conn0).
Proof.
  destruct (cart_order_all_or_nothing Cases.now Cases.secondDetailFails
              Cases.cartRequest Cases.conn0 eq_refl) as [Hfail _].
  apply (Hfail 1 Cases.cart).
  - exact cart_well_formed.
  - exact cart_resolves.
  - right. exists 1%nat. split; [simpl; lia | reflexivity].
Defined.

(** The claim C4 fails when [branchId] is 0: the cart holds a product id
    that resolves to nothing, and the request is refused for its branch id,
    with an error of the other shape. *)
Lemma missing_product_behind_zero_branch :
  lookupProduct Seed.orderDb 999 = None
  ∧ createCartOrder Cases.now Seed.noFailure Cases.noBranchRequest Cases.conn0
    = (Next (ValidationError "branchId is required"), Cases.conn0).
Proof. by vm_compute. Qed.

Lemma first_missing_product_is_reported_witness :
  createCartOrder Cases.now Seed.noFailure Cases.unknownProductRequest Cases.conn0
  = (Sent {| status := 400; body := OrderValidationError "Product not found" 999 |},
     Cases.conn0).
Proof.
  apply (first_missing_product_is_reported Cases.now Seed.noFailure
           Cases.unknownProductRequest 1
           [ {| productId := 5; quantity := 2 |} ]
           {| productId := 999; quantity := 1 |} [] Cases.conn0).
  - repeat split; discriminate.
  - repeat constructor. eexists; reflexivity.
  - reflexivity.
Defined.

Lemma widget_well_formed : wellFormed Cases.widgetRequest 1 Cases.widgetCart.
Proof. repeat split; discriminate. Defined.

Lemma widget_resolves : Forall (resolves (store Cases.conn0)) Cases.widgetCart.
Proof. repeat constructor; eexists; reflexivity. Defined.

Lemma nothing_fails (cartItems : list Item) : nothingFails Seed.noFailure cartItems.
Proof. repeat split. Defined.

(** The price test: a widget ordered at 29.99, the price set to 39.99, a
    widget ordered again. *)
Lemma unit_price_is_a_snapshot_witness :
  ∃ o1 rows1 o2 rows2,
    (createCartOrder Cases.now Seed.noFailure Cases.widgetRequest Cases.conn0).1
    = Sent {| status := 201; body := OrderWithDetails o1 rows1 |}
    ∧ (createCartOrder Cases.later Seed.noFailure Cases.widgetRequest
         (updateProductPrice 39.99 5
            (createCartOrder Cases.now Seed.noFailure Cases.widgetRequest Cases.conn0).2)).1
      = Sent {| status := 201; body := OrderWithDetails o2 rows2 |}
    ∧ Forall (λ row, OrderDetail.productId row.1 = 5
                     → OrderDetail.unitPrice row.1 = 29.99%float) rows1
    ∧ Forall (λ row, OrderDetail.productId row.1 = 5
                     → OrderDetail.unitPrice row.1 = 39.99%float) rows2
    ∧ order_details
        (store (createCartOrder Cases.later Seed.noFailure Cases.widgetRequest
                  (updateProductPrice 39.99 5
                     (createCartOrder Cases.now Seed.noFailure Cases.widgetRequest
                        Cases.conn0).2)).2)
      = order_details (store Cases.conn0) ++ rows1.*1 ++ rows2.*1.
Proof.
  destruct (unit_price_is_a_snapshot Cases.now Cases.later Seed.noFailure Seed.noFailure
              Cases.widgetRequest Cases.widgetRequest 1 1
              Cases.widgetCart Cases.widgetCart Cases.conn0 5 Seed.widgetA 39.99
              eq_refl widget_well_formed widget_well_formed
              widget_resolves widget_resolves
              (nothing_fails _) (nothing_fails _) eq_refl)
    as (o1 & rows1 & o2 & rows2 & H1 & H2 & _ & _ & _ & _ & Hall & Hold & Hnew).
  exists o1, rows1, o2, rows2. split_and!; [exact H1|exact H2|exact Hold|exact Hnew|exact Hall].
Defined.

Lemma repeated_well_formed : wellFormed Cases.repeatedRequest 1 Cases.repeatedCart.
Proof. repeat split; discriminate. Defined.

Lemma repeated_resolves : Forall (resolves (store Cases.conn0)) Cases.repeatedCart.
Proof. repeat constructor; eexists; reflexivity. Defined.

Lemma one_detail_row_per_item_witness :
  ∃ o rows,
    createCartOrder Cases.now Seed.noFailure Cases.repeatedRequest Cases.conn0
    = (Sent {| status := 201; body := OrderWithDetails o rows |},
       {| store := withOrder (store Cases.conn0) o rows.*1; txn := None |})
    ∧ Forall2 (detailFor (store Cases.conn0) (Order.orderId o)) Cases.repeatedCart rows
    ∧ NoDup (OrderDetail.orderDetailId <$> rows.*1).
Proof.
  destruct (one_detail_row_per_item Cases.now Seed.noFailure Cases.repeatedRequest 1
              Cases.repeatedCart Cases.conn0 eq_refl repeated_well_formed
              repeated_resolves (nothing_fails _))
    as (o & rows & Hrun & Hrows & Hids & _).
  exists o, rows. split_and!; [exact Hrun|exact Hrows|exact Hids].
Defined.

(** The cart that names product 5 twice, run: three rows, the first and the
    third for product 5 with quantities 2 and 3. *)
Example repeated_cart_rows :
  (λ row, (OrderDetail.productId row, OrderDetail.quantity row))
    <$> order_details
          (store (createCartOrder Cases.now Seed.noFailure Cases.repeatedRequest
                    Cases.conn0).2)
  = [(5, 2); (12, 1); (5, 3)].
Proof. by vm_compute. Qed.

End on_seed.

(** * Further properties *)

(** ** getSuggestions with and without an entity filter *)

Section more_search.
Import SearchRepository SearchFacts.

(** X1: with the entity filter set to products, suppliers or orders and a
    limit that is not negative, every suggestion has the type of that
    entity and there are at most [limit] of them. *)
Theorem filtered_search_one_type h db query (limit : Z) :
  0 ≤ limit →
  (Forall (λ s, type s = SuggestionType.product)
     (getSuggestions h db query (Some "products") limit)
   ∧ Z.of_nat (length (getSuggestions h db query (Some "products") limit)) ≤ limit)
  ∧ (Forall (λ s, type s = SuggestionType.supplier)
       (getSuggestions h db query (Some "suppliers") limit)
     ∧ Z.of_nat (length (getSuggestions h db query (Some "suppliers") limit)) ≤ limit)
  ∧ (Forall (λ s, type s = SuggestionType.order)
       (getSuggestions h db query (Some "orders") limit)
     ∧ Z.of_nat (length (getSuggestions h db query (Some "orders") limit)) ≤ limit).
Proof.
  intros Hlimit.
  change (getSuggestions h db query (Some "products") limit)
    with (searchProducts h db query limit).
  change (getSuggestions h db query (Some "suppliers") limit)
    with (searchSuppliers db query limit).
  change (getSuggestions h db query (Some "orders") limit)
    with (searchOrders h db query limit).
  split_and!.
  - apply searchProducts_type.
  - by apply length_searchProducts.
  - apply searchSuppliers_type.
  - by apply length_searchSuppliers.
  - apply searchOrders_type.
  - by apply length_searchOrders.
Qed.

(** *** What the interleaving keeps of each ranking *)

Lemma filter_flat_map {A B} (f : B → bool) (g : A → list B) (l : list A) :
  List.filter f (flat_map g l) = flat_map (λ x, List.filter f (g x)) l.
Proof.
  induction l as [|x l IH]; simpl; [done|]. by rewrite List.filter_app, IH.
Qed.

Lemma flat_map_lookups {A} (l : list A) (n : nat) : ∀ k,
  flat_map (λ i, option_list (l !! i)) (seq k n) = take n (drop k l).
Proof.
  induction n as [|n IH]; intros k; simpl; [done|].
  rewrite IH. destruct (l !! k) as [x|] eqn:Hk.
  - rewrite (drop_S l x k Hk). done.
  - apply lookup_ge_None in Hk. rewrite !drop_ge by lia. by rewrite !take_nil.
Qed.

Lemma filter_all {A} (f : A → bool) (l : list A) :
  Forall (λ x, f x = true) l → List.filter f l = l.
Proof. induction 1 as [|x l Hx _ IH]; simpl; [done|]. by rewrite Hx, IH. Qed.

Lemma filter_none {A} (f : A → bool) (l : list A) :
  Forall (λ x, f x = false) l → List.filter f l = [].
Proof. induction 1 as [|x l Hx _ IH]; simpl; [done|]. by rewrite Hx. Qed.

Lemma filter_option_list {A} (f : A → bool) (l : list A) (i : nat) (keep : bool) :
  Forall (λ x, f x = keep) l →
  List.filter f (option_list (l !! i)) = if keep then option_list (l !! i) else [].
Proof.
  intros Hall. destruct (l !! i) as [x|] eqn:Hi; [|by destruct keep].
  apply list_elem_of_lookup_2 in Hi.
  rewrite Forall_forall in Hall. simpl. rewrite (Hall x Hi). by destruct keep.
Qed.

(** Out of a round robin, the entries of the first list are that list. *)
Lemma filter_roundRobin (f : SearchSuggestion → bool) (a b c : list SearchSuggestion)
    (ka kb kc : bool) :
  Forall (λ x, f x = ka) a → Forall (λ x, f x = kb) b → Forall (λ x, f x = kc) c →
  List.filter f (Spec.rounds a b c)
  = flat_map (λ i, (if ka then option_list (a !! i) else [])
                   ++ (if kb then option_list (b !! i) else [])
                   ++ (if kc then option_list (c !! i) else []))
      (seq 0 (JS.max3 (length a) (length b) (length c))).
Proof.
  intros Ha Hb Hc. unfold Spec.rounds. rewrite filter_flat_map.
  apply flat_map_ext. intros i. unfold Spec.round.
  rewrite !List.filter_app.
  by rewrite (filter_option_list f a i ka), (filter_option_list f b i kb),
    (filter_option_list f c i kc).
Qed.

Lemma take_all_lookups {A} (l : list A) (n : nat) :
  (length l ≤ n)%nat → flat_map (λ i, option_list (l !! i)) (seq 0 n) = l.
Proof. intros Hn. rewrite flat_map_lookups, drop_0. by apply take_ge. Qed.

Lemma ofType_other (t t' : SuggestionType.t) (l : list SearchSuggestion) :
  t ≠ t' → Forall (λ s, type s = t') l →
  Forall (λ s, bool_decide (type s = t) = false) l.
Proof.
  intros Hne Hall. eapply Forall_impl; [exact Hall|].
  intros s ->. by apply bool_decide_eq_false.
Qed.

Lemma ofType_same (t : SuggestionType.t) (l : list SearchSuggestion) :
  Forall (λ s, type s = t) l → Forall (λ s, bool_decide (type s = t) = true) l.
Proof.
  intros Hall. eapply Forall_impl; [exact Hall|].
  intros s ->. by apply bool_decide_eq_true.
Qed.

#[local] Ltac type_side :=
  first [ by apply ofType_same
        | eapply ofType_other; [|eassumption]; discriminate ].

Lemma filter_take_prefix {A} (f : A → bool) (l : list A) (n : nat) :
  List.filter f (take n l) `prefix_of` List.filter f l.
Proof.
  exists (List.filter f (drop n l)).
  by rewrite <- List.filter_app, take_drop.
Qed.

Lemma ofType_roundRobin (ps ss os : list SearchSuggestion) :
  Forall (λ s, type s = SuggestionType.product) ps →
  Forall (λ s, type s = SuggestionType.supplier) ss →
  Forall (λ s, type s = SuggestionType.order) os →
  ofType SuggestionType.product (Spec.rounds ps ss os) = ps
  ∧ ofType SuggestionType.supplier (Spec.rounds ps ss os) = ss
  ∧ ofType SuggestionType.order (Spec.rounds ps ss os) = os.
Proof.
  intros Hp Hs Ho. unfold ofType. split_and!.
  - rewrite (filter_roundRobin _ ps ss os true false false);
      [|type_side..].
    erewrite flat_map_ext; [apply take_all_lookups|]; unfold JS.max3.
    + lia.
    + intros i. simpl. by rewrite app_nil_r.
  - rewrite (filter_roundRobin _ ps ss os false true false);
      [|type_side..].
    erewrite flat_map_ext; [apply take_all_lookups|]; unfold JS.max3.
    + lia.
    + intros i. simpl. by rewrite app_nil_r.
  - rewrite (filter_roundRobin _ ps ss os false false true);
      [|type_side..].
    erewrite flat_map_ext; [apply take_all_lookups|]; unfold JS.max3.
    + lia.
    + intros i. done.
Qed.


End more_search.

(** ** Where the suggestions come from *)

Section search_sources.
Import SearchRepository SearchFacts.

Lemma elem_of_sql_limit {A} (n : Z) (rows : list A) (x : A) :
  x ∈ SQLite.limit n rows → x ∈ rows.
Proof.
  unfold SQLite.limit. destruct (n <? 0); [done|]. apply subseteq_take.
Qed.

Lemma elem_of_orderBy {A} (le : A → A → bool) (rows : list A) (x : A) :
  x ∈ SQLite.orderBy le rows ↔ x ∈ rows.
Proof. by rewrite orderBy_Permutation. Qed.

Lemma elem_of_map {A B} (f : A → B) (l : list A) (y : B) :
  y ∈ map f l → ∃ x, x ∈ l ∧ y = f x.
Proof.
  intros (x & <- & Hx)%list_elem_of_In%in_map_iff.
  exists x. by rewrite list_elem_of_In.
Qed.

Lemma elem_of_searchProducts h db query n s :
  s ∈ searchProducts h db query n →
  ∃ row, row ∈ Spec.matchingProducts db query ∧ s = productSuggestion h row.
Proof.
  intros (row & Hrow & ->)%elem_of_map. exists row. split; [|done].
  by apply elem_of_sql_limit, elem_of_orderBy in Hrow.
Qed.

Lemma elem_of_searchSuppliers db query n s :
  s ∈ searchSuppliers db query n →
  ∃ row, row ∈ Spec.matchingSuppliers db query ∧ s = supplierSuggestion row.
Proof.
  intros (row & Hrow & ->)%elem_of_map. exists row. split; [|done].
  by apply elem_of_sql_limit, elem_of_orderBy in Hrow.
Qed.

Lemma elem_of_searchOrders h db query n s :
  s ∈ searchOrders h db query n →
  ∃ row, row ∈ Spec.matchingOrders db query ∧ s = orderSuggestion h row.
Proof.
  intros (row & Hrow & ->)%elem_of_map. exists row. split; [|done].
  by apply elem_of_sql_limit, elem_of_orderBy in Hrow.
Qed.

Lemma elem_of_roundRobin {A} (a b c : list A) (x : A) :
  x ∈ Spec.rounds a b c → x ∈ a ∨ x ∈ b ∨ x ∈ c.
Proof.
  intros (i & _ & Hx)%list_elem_of_In%in_flat_map.
  apply list_elem_of_In in Hx. unfold Spec.round in Hx.
  rewrite !elem_of_app in Hx.
  destruct Hx as [Hx|[Hx|Hx]]; [left|right; left|right; right];
    (destruct (_ !! i) as [y|] eqn:Hi; simpl in Hx;
     [apply list_elem_of_singleton in Hx as ->; by eapply list_elem_of_lookup_2
     |by apply elem_of_nil in Hx]).
Qed.

(** X3: with no entity filter, every suggestion returned is built from a
    row of its table that the WHERE clause of that table's query selects:
    nothing is returned that does not match, and nothing is made up. *)
Theorem suggestions_come_from_matching_rows h db query (limit : Z) s :
  0 ≤ limit →
  s ∈ getSuggestions h db query None limit →
  (∃ row, row ∈ Spec.matchingProducts db query ∧ s = productSuggestion h row)
  ∨ (∃ row, row ∈ Spec.matchingSuppliers db query ∧ s = supplierSuggestion row)
  ∨ (∃ row, row ∈ Spec.matchingOrders db query ∧ s = orderSuggestion h row).
Proof.
  intros Hlimit. rewrite getSuggestions_all_eq by done.
  intros Hs%subseteq_take%elem_of_roundRobin.
  destruct Hs as [Hs|[Hs|Hs]].
  - left. by eapply elem_of_searchProducts.
  - right; left. by eapply elem_of_searchSuppliers.
  - right; right. by eapply elem_of_searchOrders.
Qed.

(** *** When one table only has matches *)

Lemma search_nothing {A B} (le : A → A → bool) (f : A → B) (n : Z) :
  map f (SQLite.limit n (SQLite.orderBy le [])) = [].
Proof.
  change (SQLite.orderBy le []) with (@nil A). unfold SQLite.limit.
  destruct (n <? 0); [done|]. by rewrite take_nil.
Qed.

Lemma searchProducts_nil h db query n :
  Spec.matchingProducts db query = [] → searchProducts h db query n = [].
Proof.
  unfold Spec.matchingProducts, searchProducts, productRows. intros ->.
  apply search_nothing.
Qed.

Lemma searchSuppliers_nil db query n :
  Spec.matchingSuppliers db query = [] → searchSuppliers db query n = [].
Proof.
  unfold Spec.matchingSuppliers, searchSuppliers, supplierRows. intros ->.
  apply search_nothing.
Qed.

Lemma searchOrders_nil h db query n :
  Spec.matchingOrders db query = [] → searchOrders h db query n = [].
Proof.
  unfold Spec.matchingOrders, searchOrders, orderRows. intros ->.
  apply search_nothing.
Qed.

Lemma roundRobin_first {A} (a : list A) : Spec.rounds a [] [] = a.
Proof.
  unfold Spec.rounds, JS.max3. simpl length. rewrite !Nat.max_0_r.
  erewrite flat_map_ext; [by apply take_all_lookups|].
  intros i. unfold Spec.round. by rewrite !lookup_nil, !app_nil_r.
Qed.

Lemma roundRobin_second {A} (b : list A) : Spec.rounds [] b [] = b.
Proof.
  unfold Spec.rounds, JS.max3. simpl length. rewrite Nat.max_0_r.
  erewrite flat_map_ext; [by apply take_all_lookups|].
  intros i. unfold Spec.round. by rewrite !lookup_nil, !app_nil_r.
Qed.

Lemma roundRobin_third {A} (c : list A) : Spec.rounds [] [] c = c.
Proof.
  unfold Spec.rounds, JS.max3. simpl length.
  erewrite flat_map_ext; [by apply take_all_lookups|].
  intros i. unfold Spec.round. by rewrite !lookup_nil.
Qed.

Lemma ceilDiv3_le (limit : Z) : 0 ≤ limit → 0 ≤ JS.ceilDiv3 limit ≤ limit.
Proof. intros Hlimit. pose proof (ceilDiv3_spec limit). lia. Qed.

Lemma take_whole {A} (l : list A) (limit per : Z) :
  0 ≤ per ≤ limit → Z.of_nat (length l) ≤ per → take (Z.to_nat limit) l = l.
Proof. intros Hper Hlen. apply take_ge. lia. Qed.


(** *** A query of wildcards *)

Lemma patternCompare_all_percent (p : string) : ∀ text,
  allPercent p = true → SQLite.patternCompare (String "%" p) text = true.
Proof.
  induction p as [|c p IH]; intros text Hp; [apply patternCompare_percent_only|].
  simpl in Hp. apply andb_prop in Hp as [->%Ascii.eqb_eq Hp].
  rewrite patternCompare_percent, IH; done.
Qed.

Lemma allPercent_noNul (p : string) : allPercent p = true → Spec.noNul p = true.
Proof.
  induction p as [|c p IH]; [done|]. simpl.
  intros [->%Ascii.eqb_eq Hp]%andb_prop. by apply IH.
Qed.

Lemma like_all_percent (p text : string) :
  allPercent p = true → SQLite.like (String "%" p) text = true.
Proof.
  intros Hp. unfold SQLite.like.
  rewrite (cString_noNul (String "%" p)) by (by apply allPercent_noNul).
  by apply patternCompare_all_percent.
Qed.

Lemma allPercent_append (p : string) : allPercent p = true → allPercent (p +:+ "%") = true.
Proof.
  induction p as [|c p IH]; [done|]. simpl. intros [-> Hp]%andb_prop. by apply IH.
Qed.

Lemma filter_true {A} (f : A → bool) (l : list A) :
  (∀ x, f x = true) → List.filter f l = l.
Proof. intros Hf. apply filter_all, Forall_forall. auto. Qed.

(** X5: a query made of [%] only selects every row of every table, since
    the query goes into the LIKE pattern as it is. *)
Theorem percent_query_selects_everything db query :
  allPercent query = true →
  Spec.matchingProducts db query = products db
  ∧ Spec.matchingSuppliers db query = suppliers db
  ∧ Spec.matchingOrders db query = orders db.
Proof.
  intros Hq.
  assert (∀ text, SQLite.like ("%" +:+ query +:+ "%") text = true) as Hlike.
  { intros text. apply (like_all_percent (query +:+ "%")). by apply allPercent_append. }
  unfold Spec.matchingProducts, Spec.matchingSuppliers, Spec.matchingOrders.
  split_and!; apply filter_true; intros row.
  - unfold productWhere. by rewrite Hlike.
  - apply Hlike.
  - apply Hlike.
Qed.

End search_sources.

(** ** The best tier comes first *)

Section best_first.
Import SearchRepository.

Context {A : Type} (rank : A → Z) (le2 : A → A → bool).
Context (le2_total : ∀ a b, le2 a b = true ∨ le2 b a = true).
Context (le2_trans : ∀ a b c, le2 a b = true → le2 b c = true → le2 a c = true).

(** WHERE, ORDER BY and LIMIT with a limit of one or more: when a row is
    selected, the first row kept is a selected row of a rank not above its
    rank. *)
Lemma select_head (wh : A → bool) (table : list A) (n : Z) (row : A) :
  1 ≤ n →
  row ∈ List.filter wh table →
  ∃ first rest,
    SQLite.limit n (SQLite.orderBy (Spec.lexLe rank le2) (List.filter wh table))
    = first :: rest
    ∧ first ∈ List.filter wh table
    ∧ rank first ≤ rank row.
Proof.
  intros Hn Hrow.
  pose proof (@orderBy_sorted A (Spec.lexLe rank le2)
                (lexLe_total rank le2 le2_total) (lexLe_trans rank le2 le2_trans)
                (List.filter wh table)) as Hsorted.
  apply (elem_of_orderBy (Spec.lexLe rank le2)) in Hrow.
  destruct (SQLite.orderBy _ _) as [|first sorted] eqn:Hsort;
    [by apply elem_of_nil in Hrow|].
  exists first, (take (Z.to_nat n - 1) sorted). split_and!.
  - unfold SQLite.limit. destruct (Z.ltb_spec n 0); [lia|].
    destruct (Z.to_nat n) as [|k] eqn:Hk; [lia|]. simpl. by rewrite Nat.sub_0_r.
  - apply (elem_of_orderBy (Spec.lexLe rank le2)). rewrite Hsort. by left.
  - apply StronglySorted_inv in Hsorted as [_ Hfirst].
    apply elem_of_cons in Hrow as [->|Hrow]; [lia|].
    rewrite Forall_forall in Hfirst. specialize (Hfirst row Hrow).
    apply Is_true_true, lexLe_spec in Hfirst. lia.
Qed.

End best_first.

Section best_match.
Import SearchRepository.


End best_match.

(** ** GET /suggestions: what an accepted request gets *)

Section route_results.
Import SearchRoute SearchRepository.

(** The two ways the route ends: a validation error passed on, or 200 with
    the suggestions for the query read, under a limit between 1 and 20 and
    an entity filter that is absent, empty or one of the three names. *)
Lemma suggestions_cases h db (req : Query) :
  (∃ message, suggestions h db req = Next (ValidationError message))
  ∨ ∃ query n,
      q req = Some query ∧ (3 ≤ String.length query)%nat
      ∧ Spec.effectiveLimit req = Some n ∧ 1 ≤ n ≤ 20
      ∧ (entity req = None ∨ entity req = Some ""
         ∨ entity req = Some "products" ∨ entity req = Some "suppliers"
         ∨ entity req = Some "orders")
      ∧ suggestions h db req
        = Sent {| status := 200;
                  body := SearchResponse query
                            (getSuggestions h db query (entity req) n) |}.
Proof.
  unfold suggestions. rewrite effectiveLimit_route.
  destruct (truthy (q req)) eqn:Hq; simpl; [|by eauto].
  apply truthy_true in Hq as (query & Hquery & Hne). rewrite Hquery. simpl.
  destruct (Nat.ltb_spec (String.length query) 3) as [Hshort|Hlong]; [by eauto|].
  destruct (truthy (entity req) && _) eqn:He; [by eauto|].
  destruct (Spec.effectiveLimit req) as [n|] eqn:Hlimit; [|by eauto].
  destruct (Z.ltb_spec n 1) as [Hlow|Hlow]; [by eauto|].
  destruct (Z.gtb_spec n 20) as [Hhigh|Hhigh]; [by eauto|].
  right. exists query, n. split_and!; [done|lia|done|lia|lia| |done].
  apply andb_false_iff in He as [He|He].
  - apply truthy_false in He as [He|He]; auto.
  - destruct (entity req) as [e|]; [|by left]. simpl in He.
    apply negb_false_iff, bool_decide_eq_true in He.
    unfold validEntities in He.
    rewrite !elem_of_cons in He.
    destruct He as [->|[->|[->|He]]]; [tauto..|by apply elem_of_nil in He].
Qed.

Lemma length_getSuggestions_route h db query entity (n : Z) :
  0 ≤ n →
  entity = None ∨ entity = Some "" ∨ entity = Some "products"
  ∨ entity = Some "suppliers" ∨ entity = Some "orders" →
  Z.of_nat (length (getSuggestions h db query entity n)) ≤ n.
Proof.
  intros Hn [->|[->|[->|[->| ->]]]].
  - rewrite getSuggestions_all_eq, length_take by done. lia.
  - change (getSuggestions h db query (Some "") n)
      with (getSuggestions h db query None n).
    rewrite getSuggestions_all_eq, length_take by done. lia.
  - by apply length_searchProducts.
  - by apply length_searchSuppliers.
  - by apply length_searchOrders.
Qed.

(** X7: whenever the route answers 200, the body carries the query as it
    was sent and at most as many suggestions as the limit read from the
    request, which is at most 20 (10 when no limit was sent). *)
Theorem accepted_search_respects_limit h db (req : Query) :
  status (respond (suggestions h db req)) = 200 →
  ∃ query n l,
    q req = Some query
    ∧ Spec.effectiveLimit req = Some n
    ∧ respond (suggestions h db req)
      = {| status := 200; body := SearchResponse query l |}
    ∧ Z.of_nat (length l) ≤ n ∧ n ≤ 20.
Proof.
  destruct (suggestions_cases h db req)
    as [[message ->]|(query & n & Hq & _ & Hn & Hrange & Hentity & ->)];
    [discriminate|].
  intros _. eexists query, n, _. split_and!; [done|done|done| |lia].
  apply length_getSuggestions_route; [lia|done].
Qed.

Lemma getSuggestions_nothing h db query entity (n : Z) :
  0 ≤ n →
  entity = None ∨ entity = Some "" ∨ entity = Some "products"
  ∨ entity = Some "suppliers" ∨ entity = Some "orders" →
  Spec.matchingProducts db query = [] →
  Spec.matchingSuppliers db query = [] →
  Spec.matchingOrders db query = [] →
  getSuggestions h db query entity n = [].
Proof.
  intros Hn Hentity HP HS HO.
  assert (getSuggestions h db query None n = []) as Hnone.
  { rewrite getSuggestions_all_eq by done.
    rewrite (searchProducts_nil _ _ _ _ HP), (searchSuppliers_nil _ _ _ HS),
      (searchOrders_nil _ _ _ _ HO).
    by rewrite roundRobin_first, take_nil. }
  destruct Hentity as [->|[->|[->|[->| ->]]]]; [done|exact Hnone|..].
  - by apply searchProducts_nil.
  - by apply searchSuppliers_nil.
  - by apply searchOrders_nil.
Qed.

(** X8: a request that is accepted and whose query selects no row in any
    of the three tables is answered 200 with an empty list of suggestions,
    whatever the entity filter and the limit. *)
Theorem no_match_is_an_empty_list h db (req : Query) query :
  status (respond (suggestions h db req)) = 200 →
  q req = Some query →
  Spec.matchingProducts db query = [] →
  Spec.matchingSuppliers db query = [] →
  Spec.matchingOrders db query = [] →
  respond (suggestions h db req)
  = {| status := 200; body := SearchResponse query [] |}.
Proof.
  destruct (suggestions_cases h db req)
    as [[message ->]|(query' & n & Hq & _ & Hn & Hrange & Hentity & ->)];
    [discriminate|].
  intros _ Hquery HP HS HO. rewrite Hq in Hquery. injection Hquery as ->.
  simpl. by rewrite getSuggestions_nothing by (done || lia).
Qed.

(** *** A limit written in decimal *)

Lemma digits_step (c : ascii) (d : Z) (s : string) (acc : option Z) :
  JS.digitValue 10 c = Some d →
  JS.digits 10 (String c s) acc = JS.digits 10 s (Some (10 * default 0 acc + d)).
Proof. intros Hc. simpl. by rewrite Hc. Qed.

Lemma digits_acc (u : Decimal.uint) : ∀ acc : positive,
  JS.digits 10 (NilEmpty.string_of_uint u) (Some (Z.pos acc))
  = Some (Z.pos (Pos.of_uint_acc u acc)).
Proof.
  induction u as [|u IH|u IH|u IH|u IH|u IH|u IH|u IH|u IH|u IH|u IH];
    intros acc; [done|..];
    cbn [NilEmpty.string_of_uint Pos.of_uint_acc];
    erewrite digits_step by (vm_compute; reflexivity);
    rewrite <- IH; do 2 f_equal; cbn [default]; unfold Datatypes.id; lia.
Qed.

Lemma digits_zero (u : Decimal.uint) :
  JS.digits 10 (NilEmpty.string_of_uint u) (Some 0)
  = Some (Z.of_N (Pos.of_uint u)).
Proof.
  induction u as [|u IH|u IH|u IH|u IH|u IH|u IH|u IH|u IH|u IH|u IH];
    [done|..];
    cbn [NilEmpty.string_of_uint Pos.of_uint];
    erewrite digits_step by (vm_compute; reflexivity);
    [exact IH|..]; exact (digits_acc u _).
Qed.

Lemma digits_none (u : Decimal.uint) :
  u ≠ Decimal.Nil →
  JS.digits 10 (NilEmpty.string_of_uint u) None
  = Some (Z.of_N (Pos.of_uint u)).
Proof.
  intros Hu. rewrite <- digits_zero.
  destruct u; [done|..]; cbn [NilEmpty.string_of_uint];
    by erewrite !digits_step by (vm_compute; reflexivity).
Qed.

(** Integers below 2^53 in absolute value are Numbers as they are. *)
Lemma toNumber_exact (n : Z) : Z.abs n < 2 ^ 53 → JS.toNumber n = n.
Proof.
  intros Hn. unfold JS.toNumber.
  destruct (Z.leb_spec (Z.log2 (Z.abs n) - 52) 0) as [_|He]; [done|].
  exfalso. assert (0 < Z.abs n) as Hpos.
  { destruct (Z.abs n) eqn:Habs; [simpl in He; lia|lia|lia]. }
  apply (Z.log2_lt_pow2 _ 53) in Hn; lia.
Qed.

(** Rounding keeps larger integers at 2^53 or above, on their side of 0. *)
Lemma toNumber_large (n : Z) :
  2 ^ 53 ≤ Z.abs n →
  (0 < n → 2 ^ 53 ≤ JS.toNumber n) ∧ (n < 0 → JS.toNumber n ≤ - 2 ^ 53).
Proof.
  intros Hn. unfold JS.toNumber.
  destruct (Z.leb_spec (Z.log2 (Z.abs n) - 52) 0) as [_|He]; [lia|].
  set (m := Z.abs n) in *. set (e := Z.log2 m - 52) in *.
  assert (0 < m) as Hpos by lia.
  destruct (Z.log2_spec m Hpos) as [Hlow _].
  replace (Z.log2 m) with (52 + e) in Hlow by lia.
  rewrite Z.pow_add_r in Hlow by lia.
  assert (2 ≤ 2 ^ e) as Hpow.
  { change 2 with (2 ^ 1) at 1. apply Z.pow_le_mono_r; lia. }
  assert (2 ^ 52 ≤ m `div` 2 ^ e) as Hsig.
  { apply Z.div_le_lower_bound; lia. }
  set (rounded := if _ <? _ then _ else _).
  assert (m `div` 2 ^ e ≤ rounded) as Hround.
  { unfold rounded. repeat case_match; lia. }
  assert (2 ^ 53 ≤ rounded * 2 ^ e) as Hbig.
  { change (2 ^ 53) with (2 ^ 52 * 2). apply Z.mul_le_mono_nonneg; lia. }
  split; intros Hsign.
  - rewrite Z.sgn_pos by done. lia.
  - rewrite Z.sgn_neg by done. lia.
Qed.

(** Rounding does not move an integer into or out of the range 1..20. *)
Lemma toNumber_limit (n : Z) : 1 ≤ JS.toNumber n ≤ 20 ↔ 1 ≤ n ≤ 20.
Proof.
  destruct (Z.lt_ge_cases (Z.abs n) (2 ^ 53)) as [Hsmall|Hlarge].
  - by rewrite toNumber_exact.
  - destruct (toNumber_large n Hlarge) as [Hpos Hneg].
    assert (2 ^ 53 = 9007199254740992) as Hval by done.
    split; intros Hrange; [|lia].
    destruct (Z.lt_trichotomy n 0) as [?|[->|?]]; [| simpl in Hlarge |]; lia.
Qed.

(** [parseInt] on a numeral without sign reads its digits in radix 10. *)
Lemma parseInt_numeral (u : Decimal.uint) :
  u ≠ Decimal.Nil →
  JS.parseInt (NilEmpty.string_of_uint u)
  = JS.toNumber <$> JS.digits 10 (NilEmpty.string_of_uint u) None
  ∧ JS.parseInt (String "-" (NilEmpty.string_of_uint u))
    = (λ n, JS.toNumber (- n)) <$> JS.digits 10 (NilEmpty.string_of_uint u) None.
Proof.
  intros Hu.
  assert (∀ o : option Z, (λ n, JS.toNumber (1 * n)) <$> o = JS.toNumber <$> o) as Hone.
  { intros [n|]; simpl; [do 2 f_equal; lia|done]. }
  assert (∀ o : option Z,
            (λ n, JS.toNumber (-1 * n)) <$> o = (λ n, JS.toNumber (- n)) <$> o) as Hneg.
  { intros [n|]; simpl; [do 2 f_equal; lia|done]. }
  destruct u as [|u|u|u|u|u|u|u|u|u|u]; [done|destruct u|..];
    cbn [NilEmpty.string_of_uint]; unfold JS.parseInt; cbn [JS.trimStart];
    repeat match goal with
           | |- context [JS.isWhiteSpace ?c] =>
               replace (JS.isWhiteSpace c) with false by (vm_compute; reflexivity)
           end;
    cbv beta iota zeta; by rewrite ?Hone, ?Hneg.
Qed.

Lemma to_uint_not_nil (p : positive) : Pos.to_uint p ≠ Decimal.Nil.
Proof.
  intros Hnil. pose proof (DecimalPos.Unsigned.of_to p) as Hp.
  rewrite Hnil in Hp. discriminate.
Qed.

(** Reading an integer back from its decimal numeral gives the Number
    nearest to it. *)
Lemma parseInt_integerToString (n : Z) :
  JS.parseInt (OrderRoute.integerToString n) = Some (JS.toNumber n).
Proof.
  unfold OrderRoute.integerToString.
  destruct n as [|p|p]; [done|..]; simpl Z.to_int; unfold NilZero.string_of_int,
    NilZero.string_of_uint.
  - pose proof (to_uint_not_nil p) as Hp.
    destruct (parseInt_numeral (Pos.to_uint p) Hp) as [Hparse _].
    destruct (Pos.to_uint p) eqn:Hu; [done|..];
      rewrite Hparse, digits_none by done; rewrite <- Hu;
      by rewrite DecimalPos.Unsigned.of_to.
  - pose proof (to_uint_not_nil p) as Hp.
    destruct (parseInt_numeral (Pos.to_uint p) Hp) as [_ Hparse].
    destruct (Pos.to_uint p) eqn:Hu; [done|..];
      rewrite Hparse, digits_none by done; rewrite <- Hu;
      by rewrite DecimalPos.Unsigned.of_to.
Qed.

(** An integer a Number holds exactly is read back as it is. *)
Lemma parseInt_integerToString_exact (n : Z) :
  Z.abs n < 2 ^ 53 → JS.parseInt (OrderRoute.integerToString n) = Some n.
Proof. intros Hn. by rewrite parseInt_integerToString, toNumber_exact. Qed.

Lemma integerToString_truthy (n : Z) : truthy (Some (OrderRoute.integerToString n)) = true.
Proof.
  pose proof (parseInt_integerToString n) as Hn.
  by destruct (OrderRoute.integerToString n).
Qed.

(** X9: for a query of three characters or more, no entity filter and a
    limit sent as the decimal numeral of an integer [n], the route answers
    200 with the suggestions under the limit [n] when [n] is between 1 and
    20, and 400 for every other integer. *)
Theorem decimal_limit_is_read_back h db query (n : Z) :
  (3 ≤ String.length query)%nat →
  let req := {| q := Some query; entity := None;
                limit := Some (OrderRoute.integerToString n) |} in
  (1 ≤ n ≤ 20 →
     respond (suggestions h db req)
     = {| status := 200;
          body := SearchResponse query (getSuggestions h db query None n) |})
  ∧ (¬ 1 ≤ n ≤ 20 → status (respond (suggestions h db req)) = 400).
Proof.
  intros Hquery req.
  assert (Spec.effectiveLimit req = Some (JS.toNumber n)) as Hlimit.
  { unfold Spec.effectiveLimit, req. simpl.
    pose proof (integerToString_truthy n) as Htruthy.
    destruct (OrderRoute.integerToString n) eqn:Hs; [done|].
    rewrite <- Hs. apply parseInt_integerToString. }
  pose proof (toNumber_limit n) as Hround.
  destruct (suggestions_cases h db req)
    as [[message Hrun]|(query' & n' & Hq & _ & Hn & Hrange & _ & Hrun)].
  - split; [|by rewrite Hrun].
    intros Hrange. exfalso. revert Hrun. unfold suggestions.
    rewrite effectiveLimit_route, Hlimit. unfold req. simpl.
    destruct query as [|c query]; [simpl in Hquery; lia|]. simpl truthy. simpl negb.
    cbv iota. simpl default.
    destruct (Nat.ltb_spec (String.length (String c query)) 3); [lia|].
    destruct (Z.ltb_spec (JS.toNumber n) 1); [lia|].
    destruct (Z.gtb_spec (JS.toNumber n) 20); [lia|done].
  - rewrite Hlimit in Hn. injection Hn as <-. injection Hq as <-.
    split; [|intros Hno; lia].
    intros Hin. rewrite Hrun. by rewrite toNumber_exact by lia.
Qed.

End route_results.

(** ** POST / : more on what a request does to the connection *)

Section more_cart_order.
Import OrderRoute OrderSpec.

(** From a connection with no transaction open the handler ends in one of
    four ways: a validation error, the 400 for a missing product, an error
    from the transaction, or 201; only the last changes the connection. *)
Lemma createCartOrder_outcomes now fails req c :
  txn c = None →
  (∃ message, createCartOrder now fails req c = (Next (ValidationError message), c))
  ∨ (∃ missing,
       createCartOrder now fails req c
       = (Sent {| status := 400;
                  body := OrderValidationError "Product not found" missing |}, c))
  ∨ (∃ e, createCartOrder now fails req c = (Next (Error e), c))
  ∨ (∃ branch cartItems,
       wellFormed req branch cartItems
       ∧ Forall (resolves (store c)) cartItems
       ∧ nothingFails fails cartItems
       ∧ createCartOrder now fails req c
         = (Sent {| status := 201;
                    body := OrderWithDetails (newOrder (store c) branch now)
                              (newDetails (lookupProduct (store c))
                                 (Order.orderId (newOrder (store c) branch now))
                                 cartItems (order_details (store c))) |},
            {| store :=
                 withOrder (store c) (newOrder (store c) branch now)
                   (newDetails (lookupProduct (store c))
                      (Order.orderId (newOrder (store c) branch now))
                      cartItems (order_details (store c))).*1;
               txn := None |})).
Proof.
  intros Hidle.
  destruct (wellFormed_or_not req) as [(branch & cartItems & Hreq)|Hbad];
    [|left; by apply createCartOrder_malformed].
  destruct (first_unresolved (store c) cartItems)
    as [Hall|(before & item & after & -> & Hall & Hnone)];
    [|right; left; eexists; by apply (createCartOrder_missing _ _ _ branch before item after)].
  destruct (createCartOrder_resolved now fails req branch cartItems c)
    as [Hok Hno]; [done..|].
  destruct (nothingFails_dec fails cartItems) as [Hnothing|Hsome].
  - do 3 right. exists branch, cartItems. split_and!; [done..|]. by apply Hok.
  - right; right; left. apply Hno. intros (HfO & HfD & HfC).
    destruct Hsome as [[?|(i & Hi & Hfail)]|(_ & _ & ?)]; [congruence| |congruence].
    rewrite HfD in Hfail; done.
Qed.

(** X10: the order of a request that goes through has the branch id of the
    request, the time of the request as its date, the status "pending" and
    an empty name and description; its id is none of the ids in use; the
    response lists as many details as the cart has items; and the order in
    the response is the row the orders table then holds under that id. *)
Theorem created_order_is_pending now fails req branch (cartItems : list Item) c :
  txn c = None →
  wellFormed req branch cartItems →
  Forall (resolves (store c)) cartItems →
  nothingFails fails cartItems →
  ∃ o rows,
    (createCartOrder now fails req c).1
    = Sent {| status := 201; body := OrderWithDetails o rows |}
    ∧ Order.branchId o = branch
    ∧ Order.orderDate o = now
    ∧ Order.status o = "pending"
    ∧ Order.name o = "" ∧ Order.description o = ""
    ∧ (Order.orderId o ∉ Order.orderId <$> orders (store c))
    ∧ length rows = length cartItems
    ∧ List.find (λ row, Order.orderId row =? Order.orderId o)
        (orders (store (createCartOrder now fails req c).2))
      = Some o.
Proof.
  intros Hidle Hreq Hall Hok.
  destruct (createCartOrder_resolved now fails req branch cartItems c)
    as [Hrun _]; [done..|].
  rewrite (Hrun Hok). eexists _, _. split_and!; [done..| | |].
  - intros Hin%nextId_fresh. simpl in Hin. lia.
  - symmetry. eapply Forall2_length. by apply newDetails_detailFor.
  - apply find_new_order.
Qed.

(** BEGIN on a connection that has a transaction open: the statement
    fails, and the ROLLBACK of the [catch] ends the transaction that was
    open. *)
Lemma createCartOrder_open_txn now fails req branch (cartItems : list Item) c saved :
  txn c = Some saved →
  wellFormed req branch cartItems →
  Forall (resolves (store c)) cartItems →
  createCartOrder now fails req c
  = (Next (Error "cannot start a transaction within a transaction"),
     {| store := saved; txn := None |}).
Proof.
  intros Hopen (Hbranch & Hnz & Hitems & Hne) Hall.
  destruct (resolveProducts_all cartItems ∅ c Hall) as (m & Hresolve & _).
  unfold createCartOrder. rewrite Hbranch, Hitems.
  assert (falsy (Some branch) = false) as -> by (by destruct branch).
  destruct cartItems as [|item0 rest0] eqn:Hcart; [done|]. rewrite <- Hcart in *.
  unfold tryCatch at 1. erewrite bind_ok by exact Hresolve. cbv beta iota.
  unfold bind at 1, writeOrder, tryCatch, bind at 1, beginTransaction.
  rewrite Hopen. unfold bind, rollback, throw. by rewrite Hopen.
Qed.

(** X11: a request is answered with a ValidationError exactly when its
    branch id is absent or zero or its items are absent or empty, whatever
    the state of the connection and whichever statements fail; the branch
    id is looked at first, and the connection is left as it is. *)
Theorem validation_error_iff_malformed now fails req c :
  ((∃ message, (createCartOrder now fails req c).1 = Next (ValidationError message))
   ↔ falsy (branchId req) = true ∨ items req = None ∨ items req = Some [])
  ∧ (falsy (branchId req) = true →
     createCartOrder now fails req c
     = (Next (ValidationError "branchId is required"), c))
  ∧ (falsy (branchId req) = false →
     items req = None ∨ items req = Some [] →
     createCartOrder now fails req c
     = (Next (ValidationError "items array must not be empty"), c)).
Proof.
  assert (falsy (branchId req) = true →
          createCartOrder now fails req c
          = (Next (ValidationError "branchId is required"), c)) as Hbranch.
  { unfold createCartOrder, tryCatch. by intros ->. }
  assert (falsy (branchId req) = false →
          items req = None ∨ items req = Some [] →
          createCartOrder now fails req c
          = (Next (ValidationError "items array must not be empty"), c)) as Hitems.
  { unfold createCartOrder, tryCatch. intros -> [-> | ->]; done. }
  split; [|done]. split.
  - intros [message Hrun].
    destruct (wellFormed_or_not req) as [(branch & cartItems & Hreq)|Hbad].
    2:{ destruct (falsy (branchId req)) eqn:Hf; [by left|right].
        destruct (items req) as [[|item rest]|] eqn:Hi; [by right|exfalso|by left].
        apply Hbad. destruct (branchId req) as [[| |]|] eqn:Hb; try done;
          by eexists _, _. }
    exfalso.
    destruct (first_unresolved (store c) cartItems)
      as [Hall|(before & item & after & -> & Hall & Hnone)].
    2:{ by erewrite createCartOrder_missing in Hrun. }
    destruct (txn c) as [saved|] eqn:Htxn.
    { by erewrite createCartOrder_open_txn in Hrun. }
    destruct (createCartOrder_resolved now fails req branch cartItems c)
      as [Hok Hno]; [done..|].
    destruct (nothingFails_dec fails cartItems) as [Hnothing|Hsome].
    + by rewrite (Hok Hnothing) in Hrun.
    + destruct Hno as [e He]; [|by rewrite He in Hrun].
      intros (HfO & HfD & HfC).
      destruct Hsome as [[?|(i & Hi & Hfail)]|(_ & _ & ?)]; [congruence| |congruence].
      rewrite HfD in Hfail; done.
  - intros [Hf|Hi].
    + eexists. by rewrite (Hbranch Hf).
    + destruct (falsy (branchId req)) eqn:Hf.
      * eexists. by rewrite (Hbranch eq_refl).
      * eexists. by rewrite (Hitems eq_refl Hi).
Qed.

(** X12: when the inserts go through and COMMIT fails, the transaction is
    rolled back as for a failing insert: the error is passed on and the
    connection is as before the request. *)
Theorem failed_commit_rolls_back now fails req branch (cartItems : list Item) c :
  txn c = None →
  wellFormed req branch cartItems →
  Forall (resolves (store c)) cartItems →
  fails Commit = true →
  ∃ e, createCartOrder now fails req c = (Next (Error e), c).
Proof.
  intros Hidle Hreq Hall Hcommit.
  apply (createCartOrder_resolved now fails req branch cartItems c); [done..|].
  intros (_ & _ & HfC). congruence.
Qed.

(** X13: on a connection that already has a transaction open, a request
    that passes the checks writes nothing: BEGIN fails, and the ROLLBACK of
    the handler's [catch] ends the transaction that was open, taking the
    tables back to where that transaction started. *)
Theorem open_transaction_is_rolled_back now fails req branch (cartItems : list Item)
    c saved :
  txn c = Some saved →
  wellFormed req branch cartItems →
  Forall (resolves (store c)) cartItems →
  (createCartOrder now fails req c).1
  = Next (Error "cannot start a transaction within a transaction")
  ∧ store (createCartOrder now fails req c).2 = saved
  ∧ txn (createCartOrder now fails req c).2 = None.
Proof.
  intros Hopen Hreq Hall.
  by rewrite (createCartOrder_open_txn now fails req branch cartItems c saved).
Qed.

(** X14: whatever the request and whichever statements fail, from a
    connection with no transaction open the handler leaves none open, does
    not touch the suppliers and the products, and keeps every row the
    orders and order_details tables had, in place: rows are only added at
    the end. *)
Theorem cart_order_only_appends now fails req c :
  txn c = None →
  txn (createCartOrder now fails req c).2 = None
  ∧ suppliers (store (createCartOrder now fails req c).2) = suppliers (store c)
  ∧ products (store (createCartOrder now fails req c).2) = products (store c)
  ∧ orders (store c) `prefix_of` orders (store (createCartOrder now fails req c).2)
  ∧ order_details (store c)
      `prefix_of` order_details (store (createCartOrder now fails req c).2).
Proof.
  intros Hidle.
  destruct (createCartOrder_outcomes now fails req c Hidle)
    as [[? ->]|[[? ->]|[[? ->]|(branch & cartItems & _ & _ & _ & ->)]]];
    simpl; split_and!; try done; by eexists.
Qed.

End more_cart_order.

(** ** GET /:id and GET / of the orders *)

Section order_reads.
Import OrderRoute OrderSpec OrderReads.

Lemma getOrder_eq id c :
  getOrder id c
  = (match JS.parseInt id with
     | Some n =>
         match List.find (λ o, Order.orderId o =? n) (orders (store c)) with
         | Some o => JsonOrder o
         | None => Send 404 "Order not found"
         end
     | None => Send 404 "Order not found"
     end, c).
Proof.
  unfold getOrder, run, tryCatch, bind, findByNumber, ordersRepo_findById, ret.
  destruct (JS.parseInt id) as [n|]; [|done].
  by destruct (List.find _ _).
Qed.

Lemma nextId_bound (ids : list Z) (bound : Z) :
  1 ≤ bound → Forall (λ id, id < bound) ids → 1 ≤ nextId ids ≤ bound.
Proof.
  intros Hb Hall. unfold nextId.
  induction Hall as [|id ids Hid _ IH]; simpl; lia.
Qed.

(** The id of the next order is an integer a Number holds exactly when the
    ids in use are below 2^53 - 1. *)
Lemma nextId_safe (s : Store) :
  Forall (λ o, Order.orderId o < 2 ^ 53 - 1) (orders s) →
  Z.abs (nextId (Order.orderId <$> orders s)) < 2 ^ 53.
Proof.
  intros Hall.
  destruct (nextId_bound (Order.orderId <$> orders s) (2 ^ 53 - 1)) as [Hlo Hhi];
    [done|by apply Forall_fmap|lia].
Qed.

(** X15: an order created by POST / can be read back, when the ids of the
    orders table are below 2^53 - 1, so that the new id is an integer
    JavaScript numbers hold exactly: GET with the id of the response,
    written in decimal, answers with the very order the POST answered
    with. *)
Theorem created_order_can_be_read now fails req branch (cartItems : list Item) c :
  txn c = None →
  wellFormed req branch cartItems →
  Forall (resolves (store c)) cartItems →
  nothingFails fails cartItems →
  Forall (λ o, Order.orderId o < 2 ^ 53 - 1) (orders (store c)) →
  ∃ o rows,
    (createCartOrder now fails req c).1
    = Sent {| status := 201; body := OrderWithDetails o rows |}
    ∧ (getOrder (integerToString (Order.orderId o))
         (createCartOrder now fails req c).2).1
      = JsonOrder o.
Proof.
  intros Hidle Hreq Hall Hok Hsafe.
  destruct (createCartOrder_resolved now fails req branch cartItems c)
    as [Hrun _]; [done..|].
  rewrite (Hrun Hok). eexists _, _. split; [done|].
  rewrite getOrder_eq, parseInt_integerToString_exact by (by apply nextId_safe).
  pose proof (find_new_order (store c) branch now) as Hfind.
  simpl in *. by rewrite Hfind.
Qed.

(** *** Text after the id *)

Lemma digitValue_digit (c : ascii) :
  Spec.isDigit c = true → is_Some (JS.digitValue 10 c).
Proof.
  intros Hc.
  enough (implb (Spec.isDigit c)
            (match JS.digitValue 10 c with Some _ => true | None => false end) = true)
    as Hall.
  { rewrite Hc in Hall. simpl in Hall. by destruct (JS.digitValue 10 c). }
  revert c Hc. intros c _. revert c. apply forall_chars. by vm_compute.
Qed.

Lemma digitValue_other (c : ascii) :
  Spec.isDigit c = false → JS.digitValue 10 c = None.
Proof.
  intros Hc.
  enough (implb (negb (Spec.isDigit c))
            (match JS.digitValue 10 c with Some _ => false | None => true end) = true)
    as Hall.
  { rewrite Hc in Hall. simpl in Hall. by destruct (JS.digitValue 10 c). }
  revert c Hc. intros c _. revert c. apply forall_chars. by vm_compute.
Qed.

(** The digits are read up to the text that stops them. *)
Lemma digits_stop (suffix : string) (acc : option Z) :
  Spec.stopsNumber suffix = true → JS.digits 10 suffix acc = acc.
Proof.
  destruct suffix as [|c suffix]; [done|]. simpl.
  intros Hc%negb_true_iff. by rewrite digitValue_other.
Qed.

Lemma digits_app_stop (s suffix : string) :
  Spec.allDigits s = true → Spec.stopsNumber suffix = true →
  ∀ acc, JS.digits 10 (s +:+ suffix) acc = JS.digits 10 s acc.
Proof.
  intros Hs Hstop. induction s as [|c s IH]; intros acc.
  - change ("" +:+ suffix) with suffix. by rewrite digits_stop.
  - simpl in Hs. apply andb_prop in Hs as [Hc Hs].
    destruct (digitValue_digit c Hc) as [d Hd].
    change (String c s +:+ suffix) with (String c (s +:+ suffix)).
    rewrite !(digits_step c d) by done. by apply IH.
Qed.

Lemma allDigits_string_of_uint (u : Decimal.uint) :
  Spec.allDigits (NilEmpty.string_of_uint u) = true.
Proof. induction u; simpl; done. Qed.

(** [parseInt] stops at the text that follows a numeral. *)
Lemma parseInt_numeral_suffix (u : Decimal.uint) (suffix : string) :
  u ≠ Decimal.Nil → u ≠ Decimal.zero →
  Spec.stopsNumber suffix = true →
  JS.parseInt (NilEmpty.string_of_uint u +:+ suffix)
  = JS.parseInt (NilEmpty.string_of_uint u).
Proof.
  intros Hnil Hzero Hstop.
  destruct (parseInt_numeral u Hnil) as [-> _].
  rewrite <- (digits_app_stop _ suffix (allDigits_string_of_uint u) Hstop None).
  assert (∀ o : option Z, (λ n, JS.toNumber (1 * n)) <$> o = JS.toNumber <$> o) as Hone.
  { intros [n|]; simpl; [do 2 f_equal; lia|done]. }
  destruct u as [|u|u|u|u|u|u|u|u|u|u]; [done|destruct u; [done|..]|..];
    cbn [NilEmpty.string_of_uint];
    repeat match goal with
           | |- context [String ?c ?s +:+ ?t] =>
               change (String c s +:+ t) with (String c (s +:+ t))
           end;
    unfold JS.parseInt; cbn [JS.trimStart];
    repeat match goal with
           | |- context [JS.isWhiteSpace ?c] =>
               replace (JS.isWhiteSpace c) with false by (vm_compute; reflexivity)
           end;
    cbv beta iota zeta; by rewrite ?Hone.
Qed.

(** X16: GET /:id looks the order up under the integer at the start of
    the path segment and ignores what follows it: for an id of 1 or more
    written in decimal and followed by any text that does not start with
    a digit, the answer is the one for the id alone. *)
Theorem order_is_looked_up_by_leading_integer (n : Z) (suffix : string) c :
  1 ≤ n →
  Spec.stopsNumber suffix = true →
  getOrder (integerToString n +:+ suffix) c = getOrder (integerToString n) c.
Proof.
  intros Hn Hstop. rewrite !getOrder_eq.
  assert (JS.parseInt (integerToString n +:+ suffix) = JS.parseInt (integerToString n))
    as ->; [|done].
  destruct n as [|p|p]; [lia| |lia].
  unfold integerToString. simpl Z.to_int.
  unfold NilZero.string_of_int, NilZero.string_of_uint.
  pose proof (DecimalPos.Unsigned.to_uint_nonnil p) as Hnil.
  pose proof (DecimalPos.Unsigned.to_uint_nonzero p) as Hzero.
  destruct (Pos.to_uint p) eqn:Hu; [done|..]; rewrite <- Hu in *;
    by apply parseInt_numeral_suffix.
Qed.

(** X17: a request that is not answered with 201 leaves nothing to read:
    the id the next order would get is still answered with 404 (the ids
    of the orders table below 2^53 - 1, as before). *)
Theorem failed_order_cannot_be_read now fails req c :
  txn c = None →
  Forall (λ o, Order.orderId o < 2 ^ 53 - 1) (orders (store c)) →
  status (respond (createCartOrder now fails req c).1) ≠ 201 →
  getOrder (integerToString (nextId (Order.orderId <$> orders (store c))))
    (createCartOrder now fails req c).2
  = (Send 404 "Order not found", c).
Proof.
  intros Hidle Hsafe Hnot.
  assert ((createCartOrder now fails req c).2 = c) as ->.
  { destruct (createCartOrder_outcomes now fails req c Hidle)
      as [[? ->]|[[? ->]|[[? ->]|(branch & cartItems & _ & _ & _ & Hrun)]]];
      try done.
    rewrite Hrun in Hnot. by destruct Hnot. }
  rewrite getOrder_eq, parseInt_integerToString_exact by (by apply nextId_safe).
  destruct (List.find _ _) as [o|] eqn:Hfind; [|done].
  apply find_some in Hfind as [Hin Hid]. apply Z.eqb_eq in Hid.
  apply list_elem_of_In, (list_elem_of_fmap_2 Order.orderId), nextId_fresh in Hin.
  lia.
Qed.

#[local] Instance byId_trans :
  Transitive (λ a b : Order.t, Is_true (Order.orderId a <=? Order.orderId b)).
Proof.
  intros a b d Hab Hbd. apply Is_true_true in Hab, Hbd. apply Is_true_true. lia.
Qed.

#[local] Instance byId_total :
  Total (λ a b : Order.t, Is_true (Order.orderId a <=? Order.orderId b)).
Proof.
  intros a b.
  destruct (Z.le_ge_cases (Order.orderId a) (Order.orderId b));
    [left|right]; apply Is_true_true; lia.
Qed.

(** Rows with distinct keys have one sorted arrangement. *)
Lemma sorted_by_key_unique {A} (key : A → Z) (l1 l2 : list A) :
  StronglySorted (λ a b, key a ≤ key b) l1 →
  StronglySorted (λ a b, key a ≤ key b) l2 →
  l1 ≡ₚ l2 → NoDup (key <$> l1) → l1 = l2.
Proof.
  intros Hs1. revert l2. induction Hs1 as [|x l1 Hs1 IH Hx]; intros l2 Hs2 Hp Hnd.
  { by apply Permutation_nil_l in Hp. }
  destruct Hs2 as [|y l2 Hs2 Hy]; [by apply Permutation_nil_r in Hp|].
  apply NoDup_cons in Hnd as [Hxnot Hnd].
  assert (x = y) as <-.
  { assert (x ∈ y :: l2) as [->|Hxin]%elem_of_cons by (rewrite <- Hp; left); [done|].
    assert (y ∈ x :: l1) as [->|Hyin]%elem_of_cons by (rewrite Hp; left); [done|].
    rewrite Forall_forall in Hx, Hy.
    specialize (Hx y Hyin). specialize (Hy x Hxin).
    destruct Hxnot. replace (key x) with (key y) by lia.
    by apply list_elem_of_fmap_2. }
  f_equal. apply IH; [done| |done]. by apply (inj (x ::.)).
Qed.

Lemma sorted_snoc {A} (R : relation A) (l : list A) (x : A) :
  StronglySorted R l → Forall (λ y, R y x) l → StronglySorted R (l ++ [x]).
Proof.
  intros Hs Hall. induction Hs as [|y l Hs IH Hy]; simpl.
  - by repeat constructor.
  - apply Forall_cons in Hall as [Hyx Hall]. constructor; [by apply IH|].
    apply Forall_app. split; [done|by constructor].
Qed.

Lemma findAll_sorted (rows : list Order.t) :
  StronglySorted (λ a b, Order.orderId a ≤ Order.orderId b)
    (SQLite.orderBy (λ a b, Order.orderId a <=? Order.orderId b) rows).
Proof.
  eapply StronglySorted_mono; [|apply orderBy_sorted; apply _].
  intros a b Hab. apply Is_true_true in Hab. lia.
Qed.

(** X18: GET / lists the orders by ascending id, each row of the table
    once.  When the ids of the table are distinct, the list after a
    POST / that went through is the list before it followed by the new
    order. *)
Theorem new_order_is_listed_last now fails req branch (cartItems : list Item) c :
  txn c = None →
  wellFormed req branch cartItems →
  Forall (resolves (store c)) cartItems →
  nothingFails fails cartItems →
  NoDup (Order.orderId <$> orders (store c)) →
  ∃ before o rows,
    (getOrders c).1 = JsonOrders before
    ∧ before ≡ₚ orders (store c)
    ∧ StronglySorted (λ a b, Order.orderId a ≤ Order.orderId b) before
    ∧ (createCartOrder now fails req c).1
      = Sent {| status := 201; body := OrderWithDetails o rows |}
    ∧ (getOrders (createCartOrder now fails req c).2).1
      = JsonOrders (before ++ [o]).
Proof.
  intros Hidle Hreq Hall Hok Hnd.
  destruct (createCartOrder_resolved now fails req branch cartItems c)
    as [Hrun _]; [done..|].
  rewrite (Hrun Hok). eexists _, _, _.
  split; [done|]. simpl.
  set (byId := λ a b : Order.t, Order.orderId a <=? Order.orderId b).
  set (o := newOrder (store c) branch now).
  assert (SQLite.orderBy byId (orders (store c)) ≡ₚ orders (store c)) as Hperm
    by apply orderBy_Permutation.
  split_and!; [done|apply findAll_sorted|done|].
  unfold getOrders, run, tryCatch, bind, ordersRepo_findAll, ret. simpl.
  f_equal. fold byId.
  apply (sorted_by_key_unique Order.orderId).
  - apply findAll_sorted.
  - apply sorted_snoc; [apply findAll_sorted|].
    apply Forall_forall. intros y Hy. rewrite Hperm in Hy.
    apply (list_elem_of_fmap_2 Order.orderId), nextId_fresh in Hy.
    subst o. simpl. lia.
  - by rewrite !orderBy_Permutation.
  - rewrite orderBy_Permutation, fmap_app.
    apply NoDup_app. split_and!; [done| |by apply NoDup_singleton].
    intros x Hx%nextId_fresh [->|[]%elem_of_nil]%elem_of_cons.
    subst o. simpl in Hx. lia.
Qed.

End order_reads.

(** ** The limit and the case of the query *)

Section limits.
Import SearchRepository.

Lemma sql_limit_take {A} (k : Z) (rows : list A) :
  0 ≤ k → SQLite.limit k rows = take (Z.to_nat k) rows.
Proof. intros Hk. unfold SQLite.limit. by destruct (Z.ltb_spec k 0); [lia|]. Qed.

Lemma searchProducts_take h db query (k : Z) :
  0 ≤ k →
  searchProducts h db query k
  = take (Z.to_nat k) (searchProducts h db query (-1)).
Proof.
  intros Hk. unfold searchProducts, productRows.
  rewrite sql_limit_take by done. by rewrite <- fmap_take.
Qed.

Lemma searchSuppliers_take db query (k : Z) :
  0 ≤ k →
  searchSuppliers db query k = take (Z.to_nat k) (searchSuppliers db query (-1)).
Proof.
  intros Hk. unfold searchSuppliers, supplierRows.
  rewrite sql_limit_take by done. by rewrite <- fmap_take.
Qed.

Lemma searchOrders_take h db query (k : Z) :
  0 ≤ k →
  searchOrders h db query k = take (Z.to_nat k) (searchOrders h db query (-1)).
Proof.
  intros Hk. unfold searchOrders, orderRows.
  rewrite sql_limit_take by done. by rewrite <- fmap_take.
Qed.

Lemma take_prefix_le {A} (l : list A) (k k' : nat) :
  (k ≤ k')%nat → take k l `prefix_of` take k' l.
Proof.
  intros Hk. exists (drop k (take k' l)).
  rewrite <- (take_drop k (take k' l)) at 1.
  by rewrite take_take, Nat.min_l.
Qed.

Lemma flat_map_ext_seq {A} (f g : nat → list A) (n : nat) : ∀ k,
  (∀ i, (k ≤ i < k + n)%nat → f i = g i) →
  flat_map f (seq k n) = flat_map g (seq k n).
Proof.
  induction n as [|n IH]; intros k Hfg; simpl; [done|].
  rewrite Hfg by lia. f_equal. apply IH. intros i Hi. apply Hfg. lia.
Qed.

(** The interleaving of the first [k] of each list is the first [k]
    rounds of the interleaving of the lists. *)
Lemma roundRobin_take {A} (a b c : list A) (k : nat) :
  Spec.rounds (take k a) (take k b) (take k c)
  = flat_map (Spec.round a b c)
      (seq 0 (Nat.min k (JS.max3 (length a) (length b) (length c)))).
Proof.
  unfold Spec.rounds. rewrite !length_take.
  replace (JS.max3 (Nat.min k (length a)) (Nat.min k (length b)) (Nat.min k (length c)))
    with (Nat.min k (JS.max3 (length a) (length b) (length c)))
    by (unfold JS.max3; lia).
  apply flat_map_ext_seq. intros i Hi. unfold Spec.round.
  by rewrite !lookup_take_lt by lia.
Qed.

Lemma flat_map_seq_prefix {A} (f : nat → list A) (n n' : nat) :
  (n ≤ n')%nat → flat_map f (seq 0 n) `prefix_of` flat_map f (seq 0 n').
Proof.
  intros Hn. exists (flat_map f (seq n (n' - n))).
  rewrite <- flat_map_app, <- seq_app. do 2 f_equal. lia.
Qed.

Lemma prefix_of_take {A} (x l : list A) (m : nat) :
  x `prefix_of` l → (length x ≤ m)%nat → x `prefix_of` take m l.
Proof.
  intros [t ->] Hm. exists (take (m - length x) t).
  by rewrite take_app, take_ge.
Qed.

(** X19: asking for more suggestions only adds suggestions at the end:
    for limits [0 ≤ n ≤ m] the result for [n] is the beginning of the
    result for [m], with or without an entity filter. *)
Theorem raising_the_limit_appends h db query (n m : Z) :
  0 ≤ n ≤ m →
  getSuggestions h db query None n `prefix_of` getSuggestions h db query None m
  ∧ getSuggestions h db query (Some "products") n
      `prefix_of` getSuggestions h db query (Some "products") m
  ∧ getSuggestions h db query (Some "suppliers") n
      `prefix_of` getSuggestions h db query (Some "suppliers") m
  ∧ getSuggestions h db query (Some "orders") n
      `prefix_of` getSuggestions h db query (Some "orders") m.
Proof.
  intros Hnm. split; [|split_and!].
  - rewrite !getSuggestions_all_eq by lia.
    assert (0 ≤ JS.ceilDiv3 n ≤ JS.ceilDiv3 m) as Hk.
    { unfold JS.ceilDiv3. split; [apply Z.div_pos; lia|].
      apply Z.div_le_mono; lia. }
    rewrite (searchProducts_take h db query (JS.ceilDiv3 n)),
      (searchSuppliers_take db query (JS.ceilDiv3 n)),
      (searchOrders_take h db query (JS.ceilDiv3 n)),
      (searchProducts_take h db query (JS.ceilDiv3 m)),
      (searchSuppliers_take db query (JS.ceilDiv3 m)),
      (searchOrders_take h db query (JS.ceilDiv3 m)) by lia.
    rewrite !roundRobin_take.
    apply prefix_of_take; [|rewrite length_take; lia].
    etrans; [apply prefix_take|].
    apply flat_map_seq_prefix. lia.
  - change (getSuggestions h db query (Some "products") n)
      with (searchProducts h db query n).
    change (getSuggestions h db query (Some "products") m)
      with (searchProducts h db query m).
    rewrite (searchProducts_take h db query n),
      (searchProducts_take h db query m) by lia.
    apply take_prefix_le. lia.
  - change (getSuggestions h db query (Some "suppliers") n)
      with (searchSuppliers db query n).
    change (getSuggestions h db query (Some "suppliers") m)
      with (searchSuppliers db query m).
    rewrite (searchSuppliers_take db query n),
      (searchSuppliers_take db query m) by lia.
    apply take_prefix_le. lia.
  - change (getSuggestions h db query (Some "orders") n)
      with (searchOrders h db query n).
    change (getSuggestions h db query (Some "orders") m)
      with (searchOrders h db query m).
    rewrite (searchOrders_take h db query n),
      (searchOrders_take h db query m) by lia.
    apply take_prefix_le. lia.
Qed.

(** X20: two queries of characters below 128 that differ only in the case
    of their letters get the same suggestions, whatever the filter and the
    limit. *)
Theorem ascii_queries_agree_up_to_case h db q1 q2 entityType (limit : Z) :
  Spec.isAscii q1 = true →
  Spec.isAscii q2 = true →
  JS.toLowerCase q1 = JS.toLowerCase q2 →
  getSuggestions h db q1 entityType limit = getSuggestions h db q2 entityType limit.
Proof.
  intros H1 H2 Hcase.
  rewrite <- (getSuggestions_case_insensitive_ascii h db q1) by done.
  rewrite <- (getSuggestions_case_insensitive_ascii h db q2 entityType) by done.
  by rewrite Hcase.
Qed.

End limits.

(** ** The further properties on the seeded data *)

Section more_cases.
Import SearchRepository SearchRoute SearchFacts OrderRoute OrderSpec OrderReads.

Lemma filtered_search_one_type_witness :
  Forall (λ s, type s = SuggestionType.supplier)
    (getSuggestions Seed.host Seed.searchDb "widget" (Some "suppliers") 5)
  ∧ Z.of_nat (length (getSuggestions Seed.host Seed.searchDb "widget"
                        (Some "suppliers") 5)) ≤ 5.
Proof.
  destruct (filtered_search_one_type Seed.host Seed.searchDb "widget" 5)
    as (_ & Hsuppliers & _).
  - lia.
  - exact Hsuppliers.
Defined.


Lemma suggestions_come_from_matching_rows_witness :
  (∃ row, row ∈ Spec.matchingProducts Seed.searchDb "widget"
          ∧ supplierSuggestion Seed.widgetMasters = productSuggestion Seed.host row)
  ∨ (∃ row, row ∈ Spec.matchingSuppliers Seed.searchDb "widget"
            ∧ supplierSuggestion Seed.widgetMasters = supplierSuggestion row)
  ∨ (∃ row, row ∈ Spec.matchingOrders Seed.searchDb "widget"
            ∧ supplierSuggestion Seed.widgetMasters = orderSuggestion Seed.host row).
Proof.
  apply (suggestions_come_from_matching_rows Seed.host Seed.searchDb "widget" 10).
  - lia.
  - vm_compute. repeat constructor.
Defined.


Lemma percent_query_selects_everything_witness :
  Spec.matchingProducts Seed.searchDb "%%%" = products Seed.searchDb
  ∧ Spec.matchingSuppliers Seed.searchDb "%%%" = suppliers Seed.searchDb
  ∧ Spec.matchingOrders Seed.searchDb "%%%" = orders Seed.searchDb.
Proof.
  apply (percent_query_selects_everything Seed.searchDb "%%%"). reflexivity.
Defined.


Lemma accepted_search_respects_limit_witness :
  ∃ query n l,
    q MoreCases.widgetQuery = Some query
    ∧ Spec.effectiveLimit MoreCases.widgetQuery = Some n
    ∧ respond (suggestions Seed.host Seed.searchDb MoreCases.widgetQuery)
      = {| status := 200; body := SearchResponse query l |}
    ∧ Z.of_nat (length l) ≤ n ∧ n ≤ 20.
Proof.
  apply (accepted_search_respects_limit Seed.host Seed.searchDb MoreCases.widgetQuery).
  reflexivity.
Defined.

Lemma no_match_is_an_empty_list_witness :
  respond (suggestions Seed.host Seed.searchDb MoreCases.noMatchQuery)
  = {| status := 200; body := SearchResponse "zzz" [] |}.
Proof.
  apply (no_match_is_an_empty_list Seed.host Seed.searchDb MoreCases.noMatchQuery "zzz");
    reflexivity.
Defined.

Lemma decimal_limit_is_read_back_witness :
  respond (suggestions Seed.host Seed.searchDb
             {| q := Some "widget"; entity := None;
                limit := Some (integerToString 5) |})
  = {| status := 200;
       body := SearchResponse "widget"
                 (getSuggestions Seed.host Seed.searchDb "widget" None 5) |}.
Proof.
  destruct (decimal_limit_is_read_back Seed.host Seed.searchDb "widget" 5) as [Hin _].
  - simpl. lia.
  - apply Hin. lia.
Defined.

Lemma search_cart_resolves :
  Forall (resolves (store MoreCases.searchConn)) Cases.cart.
Proof. repeat constructor; eexists; reflexivity. Defined.

Lemma created_order_is_pending_witness :
  ∃ o rows,
    (createCartOrder Cases.now Seed.noFailure Cases.cartRequest MoreCases.searchConn).1
    = Sent {| status := 201; body := OrderWithDetails o rows |}
    ∧ Order.branchId o = 1
    ∧ Order.orderDate o = Cases.now
    ∧ Order.status o = "pending"
    ∧ Order.name o = "" ∧ Order.description o = ""
    ∧ (Order.orderId o ∉ Order.orderId <$> orders (store MoreCases.searchConn))
    ∧ length rows = length Cases.cart
    ∧ List.find (λ row, Order.orderId row =? Order.orderId o)
        (orders (store (createCartOrder Cases.now Seed.noFailure Cases.cartRequest
                          MoreCases.searchConn).2))
      = Some o.
Proof.
  apply (created_order_is_pending Cases.now Seed.noFailure Cases.cartRequest 1
           Cases.cart MoreCases.searchConn).
  - reflexivity.
  - exact cart_well_formed.
  - exact search_cart_resolves.
  - apply nothing_fails.
Defined.

Lemma failed_commit_rolls_back_witness :
  ∃ e, createCartOrder Cases.now MoreCases.commitFails Cases.cartRequest
         MoreCases.searchConn
       = (Next (Error e), MoreCases.searchConn).
Proof.
  apply (failed_commit_rolls_back Cases.now MoreCases.commitFails Cases.cartRequest 1
           Cases.cart MoreCases.searchConn).
  - reflexivity.
  - exact cart_well_formed.
  - exact search_cart_resolves.
  - reflexivity.
Defined.

Lemma open_transaction_is_rolled_back_witness :
  (createCartOrder Cases.now Seed.noFailure Cases.cartRequest MoreCases.openConn).1
  = Next (Error "cannot start a transaction within a transaction")
  ∧ store (createCartOrder Cases.now Seed.noFailure Cases.cartRequest
             MoreCases.openConn).2 = Seed.orderDb
  ∧ txn (createCartOrder Cases.now Seed.noFailure Cases.cartRequest
           MoreCases.openConn).2 = None.
Proof.
  apply (open_transaction_is_rolled_back Cases.now Seed.noFailure Cases.cartRequest 1
           Cases.cart MoreCases.openConn Seed.orderDb).
  - reflexivity.
  - exact cart_well_formed.
  - exact search_cart_resolves.
Defined.

Lemma cart_order_only_appends_witness :
  orders (store MoreCases.searchConn)
  `prefix_of` orders (store (createCartOrder Cases.now Cases.secondDetailFails
                               Cases.cartRequest MoreCases.searchConn).2).
Proof.
  destruct (cart_order_only_appends Cases.now Cases.secondDetailFails
              Cases.cartRequest MoreCases.searchConn) as (_ & _ & _ & Horders & _).
  - reflexivity.
  - exact Horders.
Defined.

Lemma created_order_can_be_read_witness :
  ∃ o rows,
    (createCartOrder Cases.now Seed.noFailure Cases.cartRequest MoreCases.searchConn).1
    = Sent {| status := 201; body := OrderWithDetails o rows |}
    ∧ (getOrder (integerToString (Order.orderId o))
         (createCartOrder Cases.now Seed.noFailure Cases.cartRequest
            MoreCases.searchConn).2).1
      = JsonOrder o.
Proof.
  apply (created_order_can_be_read Cases.now Seed.noFailure Cases.cartRequest 1
           Cases.cart MoreCases.searchConn).
  - reflexivity.
  - exact cart_well_formed.
  - exact search_cart_resolves.
  - apply nothing_fails.
  - repeat constructor.
Defined.

Lemma order_is_looked_up_by_leading_integer_witness :
  getOrder "2abc" MoreCases.searchConn = getOrder "2" MoreCases.searchConn
  ∧ (getOrder "2abc" MoreCases.searchConn).1 = JsonOrder Seed.gadgetOrder.
Proof.
  split; [|reflexivity].
  apply (order_is_looked_up_by_leading_integer 2 "abc" MoreCases.searchConn).
  - lia.
  - reflexivity.
Defined.

Lemma failed_order_cannot_be_read_witness :
  getOrder
    (integerToString (nextId (Order.orderId <$> orders (store MoreCases.searchConn))))
    (createCartOrder Cases.now Seed.noFailure Cases.unknownProductRequest
       MoreCases.searchConn).2
  = (Send 404 "Order not found", MoreCases.searchConn).
Proof.
  apply (failed_order_cannot_be_read Cases.now Seed.noFailure
           Cases.unknownProductRequest MoreCases.searchConn).
  - reflexivity.
  - repeat constructor.
  - vm_compute. discriminate.
Defined.

Lemma new_order_is_listed_last_witness :
  ∃ before o rows,
    (getOrders MoreCases.searchConn).1 = JsonOrders before
    ∧ before ≡ₚ orders (store MoreCases.searchConn)
    ∧ StronglySorted (λ a b, Order.orderId a ≤ Order.orderId b) before
    ∧ (createCartOrder Cases.now Seed.noFailure Cases.cartRequest
         MoreCases.searchConn).1
      = Sent {| status := 201; body := OrderWithDetails o rows |}
    ∧ (getOrders (createCartOrder Cases.now Seed.noFailure Cases.cartRequest
                    MoreCases.searchConn).2).1
      = JsonOrders (before ++ [o]).
Proof.
  apply (new_order_is_listed_last Cases.now Seed.noFailure Cases.cartRequest 1
           Cases.cart MoreCases.searchConn).
  - reflexivity.
  - exact cart_well_formed.
  - exact search_cart_resolves.
  - apply nothing_fails.
  - apply (bool_decide_unpack _). vm_compute. exact I.
Defined.

Lemma raising_the_limit_appends_witness :
  getSuggestions Seed.host Seed.searchDb "widget" None 3
  `prefix_of` getSuggestions Seed.host Seed.searchDb "widget" None 10.
Proof.
  destruct (raising_the_limit_appends Seed.host Seed.searchDb "widget" 3 10)
    as [Hall _].
  - lia.
  - exact Hall.
Defined.

Lemma ascii_queries_agree_up_to_case_witness :
  getSuggestions Seed.host Seed.searchDb "WIDGET" None 10
  = getSuggestions Seed.host Seed.searchDb "Widget" None 10.
Proof.
  apply (ascii_queries_agree_up_to_case Seed.host Seed.searchDb "WIDGET" "Widget");
    reflexivity.
Defined.

End more_cases.
